(** * p5.js: camera commands and image loading/displaying

    A shallow embedding of the Camera submodule ([camera], [perspective],
    [ortho]) and of [src/image/loading_displaying.js] ([loadImage],
    [_sAssign], [image], [tint], [noTint], [_getTintedImageCanvas],
    [imageMode]).

    JavaScript numbers are IEEE 754 binary64 values: they are modelled by
    Rocq's primitive [float]s, whose operations are the binary64 ones.  The
    order lemmas below go through the [spec_float] specification of the
    primitive comparisons. *)

From Stdlib Require Import ZArith List Bool String Ascii Lia Floats.
Import ListNotations.

Set Implicit Arguments.

(** ** JavaScript numbers *)

Module Num.

Open Scope float_scope.

(** [ToBoolean] on a number: [+0], [-0] and [NaN] are falsy. *)
Definition truthy (x : float) : bool :=
  negb (PrimFloat.eqb x 0 || is_nan x).

(** [ToNumber(undefined)] is [NaN]; an optional number read in an
    arithmetic context. *)
Definition of_undefined (a : option float) : float :=
  match a with Some x => x | None => nan end.

(** [a || d] where [a] is a number or [undefined] and [d] a number. *)
Definition or_default (a : option float) (d : float) : float :=
  match a with
  | Some x => if truthy x then x else d
  | None => d
  end.

(** [Math.PI] *)
Definition Math_PI : float := 0x1.921fb54442d18p+1.

(** An integer as a number (exact below 2^53). *)
Definition of_Z (z : Z) : float :=
  SF2Prim (binary_normalize prec emax z 0 false).

End Num.

(** ** JavaScript values, completions and the method monad *)

Module Js.

(** The values a sketch can pass where the library expects a constant. *)
Inductive value :=
| VUndefined
| VNull
| VBool (b : bool)
| VNum (x : float)
| VStr (s : string).

(** [a === b]: same type and same value; [NaN] differs from itself and
    [+0 === -0]. *)
Definition strict_eq (a b : value) : bool :=
  match a, b with
  | VUndefined, VUndefined => true
  | VNull, VNull => true
  | VBool x, VBool y => Bool.eqb x y
  | VNum x, VNum y => PrimFloat.eqb x y
  | VStr x, VStr y => String.eqb x y
  | _, _ => false
  end.

Inductive error :=
| TypeError (msg : string)
| IndexSizeError (msg : string).

(** How a call ends: it returns, or it throws. *)
Inductive completion (A : Type) :=
| Normal (a : A)
| Throw (e : error).
Arguments Normal {A} a.
Arguments Throw {A} e.

(** A method of an object whose mutable state has type [St]. *)
Definition M (St A : Type) : Type := St -> completion (A * St).

Definition ret {St A} (a : A) : M St A := fun s => Normal (a, s).

Definition bind {St A B} (m : M St A) (k : A -> M St B) : M St B :=
  fun s => match m s with
           | Normal (a, s') => k a s'
           | Throw e => Throw e
           end.

Definition get {St} : M St St := fun s => Normal (s, s).
Definition modify {St} (f : St -> St) : M St unit := fun s => Normal (tt, f s).
Definition throw {St A} (e : error) : M St A := fun _ => Throw e.

(** A computation that does not touch the state, as a method step. *)
Definition lift {St A} (c : completion A) : M St A :=
  fun s => match c with
           | Normal a => Normal (a, s)
           | Throw e => Throw e
           end.

Definition returns {St A} (m : M St A) (s : St) : Prop :=
  exists a s', m s = Normal (a, s').

Definition throws {St A} (m : M St A) (s : St) : Prop :=
  exists e, m s = Throw e.

End Js.

Declare Scope js_scope.
Delimit Scope js_scope with js.
Notation "x <- m ;; k" := (Js.bind m (fun x => k))
  (at level 61, m at next level, right associativity) : js_scope.
Notation "m ;;; k" := (Js.bind m (fun _ => k))
  (at level 61, right associativity) : js_scope.

(** ** Loading and displaying images ([src/image/loading_displaying.js]) *)

Module Image.

Import Js.
Open Scope float_scope.
Open Scope js_scope.

(** Modelled from the spec: the three placement-mode constants of
    [core/constants] (that file is not part of these sources); the spec
    names them Corner, Corners and Center, p5 spells them as strings. *)
Module constants.
Definition CORNER : value := VStr "corner".
Definition CORNERS : value := VStr "corners".
Definition CENTER : value := VStr "center".
End constants.

(** *** Platform objects *)

(** A canvas with its RGBA8 pixel buffer, as [Filters._toPixels] reads it:
    four bytes per pixel, row by row. *)
Record Canvas := {
  canvas_width : nat;
  canvas_height : nat;
  canvas_pixels : list Z
}.

(** The DOM element behind a media source: [videoWidth]/[videoHeight] are
    [undefined] on anything but a video, [style.width] is the empty string
    when unset. *)
Record Element := {
  videoWidth : option float;
  videoHeight : option float;
  elt_width : float;
  style_width : string
}.

(** What [image] accepts: a [p5.Image] (it has a canvas) or a media element
    wrapper (it has an [elt] and maybe no canvas). *)
Record Img := {
  width : float;
  height : float;
  elt : option Element;
  canvas : option Canvas
}.

Record Rect := { x : float; y : float; w : float; h : float }.

(** The arguments of one [this._renderer.image(...)] call. *)
Record DrawCall := {
  d_img : Img;
  d_sx : float; d_sy : float; d_sw : float; d_sh : float;
  d_x : float; d_y : float; d_w : float; d_h : float
}.

(** The renderer's drawing state, and the calls that reached its [image]
    method (latest first). *)
Record Renderer := {
  _tint : option (list float);
  _imageMode : value;
  _drawn : list DrawCall
}.

Definition set_tint (t : option (list float)) (r : Renderer) : Renderer :=
  {| _tint := t; _imageMode := _imageMode r; _drawn := _drawn r |}.
Definition set_imageMode (m : value) (r : Renderer) : Renderer :=
  {| _tint := _tint r; _imageMode := m; _drawn := _drawn r |}.
Definition renderer_image (c : DrawCall) (r : Renderer) : Renderer :=
  {| _tint := _tint r; _imageMode := _imageMode r; _drawn := c :: _drawn r |}.

(** *** [parseInt(s, 10)] *)

Definition is_space (c : ascii) : bool :=
  let n := nat_of_ascii c in
  ((9 <=? n) && (n <=? 13) || (n =? 32))%nat.

Fixpoint skip_spaces (s : string) : string :=
  match s with
  | String c r => if is_space c then skip_spaces r else s
  | EmptyString => s
  end.

Definition digit_of (c : ascii) : option Z :=
  let n := nat_of_ascii c in
  if ((48 <=? n) && (n <=? 57))%nat then Some (Z.of_nat (n - 48)) else None.

Fixpoint digits (s : string) (acc : option Z) : option Z :=
  match s with
  | String c r =>
      match digit_of c with
      | Some d => digits r (Some (10 * match acc with Some a => a | None => 0 end + d)%Z)
      | None => acc
      end
  | EmptyString => acc
  end.

Definition parseInt10 (s : string) : float :=
  let s := skip_spaces s in
  let '(neg, s) :=
    match s with
    | String "-"%char r => (true, r)
    | String "+"%char r => (false, r)
    | _ => (false, s)
    end in
  match digits s None with
  | None => nan
  | Some z => if neg then - Num.of_Z z else Num.of_Z z
  end.

Definition truthy_str (s : string) : bool :=
  match s with EmptyString => false | _ => true end.

Definition truthy_opt (a : option float) : bool :=
  match a with Some v => Num.truthy v | None => false end.

Definition is_some {A} (o : option A) : bool :=
  match o with Some _ => true | None => false end.

(** *** [_sAssign] *)

Definition _sAssign (sVal iVal : float) : float :=
  if (0 <? sVal) && (sVal <? iVal) then sVal else iVal.

(** *** [image] *)

(** [img.elt && img.elt.videoWidth && !img.canvas]: a video with no canvas. *)
Definition video_no_canvas (img : Img) : bool :=
  match elt img with
  | Some e => truthy_opt (videoWidth e) && negb (is_some (canvas img))
  | None => false
  end.

Definition defW (img : Img) : float :=
  match elt img with
  | Some e => if video_no_canvas img then Num.of_undefined (videoWidth e) else width img
  | None => width img
  end.

Definition defH (img : Img) : float :=
  match elt img with
  | Some e =>
      if video_no_canvas img then
        let actualW := Num.of_undefined (videoWidth e) in
        let actualH := Num.of_undefined (videoHeight e) in
        elt_width e * actualH / actualW
      else height img
  | None => height img
  end.

(** The pixel-density factor [pd]. *)
Definition pd (img : Img) : float :=
  match elt img with
  | Some e =>
      if truthy_opt (videoWidth e) && truthy_str (style_width e)
         && negb (is_some (canvas img))
      then Num.of_undefined (videoWidth e) / parseInt10 (style_width e)
      else if Num.truthy (elt_width e) && truthy_str (style_width e)
      then elt_width e / parseInt10 (style_width e)
      else 1
  | None => 1
  end.

Section WithModeAdjust.

(** [canvas.modeAdjust] of [core/canvas], which is not part of these
    sources: a parameter of [image]. *)
Variable modeAdjust : float -> float -> float -> float -> value -> Rect.

Definition image (img : Img) (dx dy : float)
    (dWidth dHeight sx sy sWidth sHeight : option float) : M Renderer unit :=
  this <- get ;;
  let defW := defW img in
  let defH := defH img in
  let _dx := dx in
  let _dy := dy in
  let _dw := Num.or_default dWidth defW in
  let _dh := Num.or_default dHeight defH in
  let _sx := Num.or_default sx 0 in
  let _sy := Num.or_default sy 0 in
  let _sw := Num.or_default sWidth defW in
  let _sh := Num.or_default sHeight defH in
  let _sw := _sAssign _sw defW in
  let _sh := _sAssign _sh defH in
  let pd := pd img in
  let _sx := _sx * pd in
  let _sy := _sy * pd in
  let _sh := _sh * pd in
  let _sw := _sw * pd in
  let vals := modeAdjust _dx _dy _dw _dh (_imageMode this) in
  modify (renderer_image
    {| d_img := img; d_sx := _sx; d_sy := _sy; d_sw := _sw; d_sh := _sh;
       d_x := x vals; d_y := y vals; d_w := w vals; d_h := h vals |}).

End WithModeAdjust.

(** Modelled from the spec: [canvas.modeAdjust] (core/canvas is not part of
    these sources).  Corner keeps the rectangle; Corners takes the two
    points as opposite corners, width [dw - dx] and height [dh - dy];
    Center moves the top-left corner back by half the size.  Any other mode
    is treated as Corner. *)
Definition modeAdjust (a b c d : float) (mode : value) : Rect :=
  if strict_eq mode constants.CORNERS then
    {| x := a; y := b; w := c - a; h := d - b |}
  else if strict_eq mode constants.CENTER then
    {| x := a - c / 2; y := b - d / 2; w := c; h := d |}
  else {| x := a; y := b; w := c; h := d |}.

(** *** [tint], [noTint], [imageMode] *)

Section WithColor.

(** [this.color.apply(this, arguments).levels]: the colour module (not part
    of these sources) resolves the arguments of [tint] to a colour, whose
    [levels] are its four channels on the 0..255 scale. *)
Variable color_levels : list value -> list float.

Definition tint (arguments : list value) : M Renderer unit :=
  modify (set_tint (Some (color_levels arguments))).

End WithColor.

Definition noTint : M Renderer unit :=
  modify (set_tint None).

Definition imageMode (m : value) : M Renderer unit :=
  if strict_eq m constants.CORNER
     || strict_eq m constants.CORNERS
     || strict_eq m constants.CENTER
  then modify (set_imageMode m)
  else ret tt.

(** *** [_getTintedImageCanvas] *)

(** The integer part of a positive finite number. *)
Definition floor_pos (v : float) : Z :=
  match Prim2SF v with
  | S754_finite false m e => Z.shiftl (Zpos m) e
  | _ => 0%Z
  end.

(** [ToUint8Clamp], the conversion a [Uint8ClampedArray] (the [data] of an
    [ImageData]) applies to a stored number: clamp to 0..255, round to the
    nearest integer, ties to even. *)
Definition ToUint8Clamp (v : float) : Z :=
  if is_nan v then 0%Z
  else if v <=? 0 then 0%Z
  else if 255 <=? v then 255%Z
  else
    let f := floor_pos v in
    if Num.of_Z f + 0.5 <? v then (f + 1)%Z
    else if v <? Num.of_Z f + 0.5 then f
    else if Z.even f then f else (f + 1)%Z.

(** [a[i] = v] on a typed array: a store outside the array is dropped. *)
Fixpoint store (a : list Z) (i : nat) (v : Z) : list Z :=
  match a, i with
  | [], _ => []
  | _ :: r, O => v :: r
  | b :: r, S i' => b :: store r i' v
  end.

(** [pixels[i]] read as a number: [undefined] past the end, hence [NaN]. *)
Definition read_px (pixels : list Z) (i : nat) : float :=
  match nth_error pixels i with
  | Some v => Num.of_Z v
  | None => nan
  end.

(** [this._renderer._tint[k]]: a [TypeError] when no tint is set ([null]). *)
Definition tint_at (t : option (list float)) (k : nat) : completion float :=
  match t with
  | None => Throw (TypeError "Cannot read property of null")
  | Some l => Normal (Num.of_undefined (nth_error l k))
  end.

(** The body of the [for] loop at index [i]. *)
Definition tint_pixel (i : nat) (pixels : list Z) (t : option (list float))
    (newPixels : list Z) : completion (list Z) :=
  let r := read_px pixels i in
  let g := read_px pixels (i + 1) in
  let b := read_px pixels (i + 2) in
  let a := read_px pixels (i + 3) in
  match tint_at t 0 with
  | Throw e => Throw e
  | Normal t0 =>
    let np := store newPixels i (ToUint8Clamp (r * t0 / 255)) in
    match tint_at t 1 with
    | Throw e => Throw e
    | Normal t1 =>
      let np := store np (i + 1) (ToUint8Clamp (g * t1 / 255)) in
      match tint_at t 2 with
      | Throw e => Throw e
      | Normal t2 =>
        let np := store np (i + 2) (ToUint8Clamp (b * t2 / 255)) in
        match tint_at t 3 with
        | Throw e => Throw e
        | Normal t3 =>
          Normal (store np (i + 3) (ToUint8Clamp (a * t3 / 255)))
        end
      end
    end
  end.

(** [for (var i = 0; i < pixels.length; i += 4) ...], from index [i] on;
    [fuel] bounds the number of iterations. *)
Fixpoint tint_loop (fuel i : nat) (pixels : list Z) (t : option (list float))
    (newPixels : list Z) : completion (list Z) :=
  match fuel with
  | O => Normal newPixels
  | S fuel' =>
    if (i <? List.length pixels)%nat then
      match tint_pixel i pixels t newPixels with
      | Throw e => Throw e
      | Normal np => tint_loop fuel' (i + 4) pixels t np
      end
    else Normal newPixels
  end.

(** An [ImageData]: its size and its [data], four bytes per pixel. *)
Record ImageData := {
  id_width : nat;
  id_height : nat;
  id_data : list Z
}.

(** [Filters._toPixels(canvas)] (image/filters is not part of these
    sources) on a canvas: the [data] of [getImageData(0, 0, canvas.width,
    canvas.height)], which throws an IndexSizeError when the width or the
    height is zero. *)
Definition _toPixels (c : Canvas) : completion (list Z) :=
  if (canvas_width c =? 0)%nat || (canvas_height c =? 0)%nat
  then Throw (IndexSizeError "The source width or height is 0")
  else Normal (canvas_pixels c).

(** [tmpCtx.createImageData(sw, sh)]: transparent black, and an
    IndexSizeError when a size is zero. *)
Definition createImageData (sw sh : nat) : completion ImageData :=
  if (sw =? 0)%nat || (sh =? 0)%nat
  then Throw (IndexSizeError "The source width or height is 0")
  else Normal {| id_width := sw; id_height := sh;
                 id_data := repeat 0%Z (4 * sw * sh) |}.

(** The canvas [_getTintedImageCanvas] creates and returns: its size, and
    the [ImageData] that [putImageData(id, 0, 0)] put into it.  How the
    canvas stores those pixels (with colour premultiplied by alpha, on most
    platforms) and what a later read gives back is the platform's and is not
    modelled. *)
Record TintedCanvas := {
  tmp_width : nat;
  tmp_height : nat;
  tmp_put : ImageData
}.

(** What [_getTintedImageCanvas] hands back: its argument, or the new canvas. *)
Inductive Source :=
| SImg (img : Img)
| SCanvas (c : TintedCanvas).

Definition _getTintedImageCanvas (img : Img) : M Renderer Source :=
  match canvas img with
  | None => ret (SImg img)
  | Some c =>
    this <- get ;;
    pixels <- lift (_toPixels c) ;;
    id <- lift (createImageData (canvas_width c) (canvas_height c)) ;;
    newPixels <- lift (tint_loop (List.length pixels) 0 pixels (_tint this)
                         (id_data id)) ;;
    ret (SCanvas {| tmp_width := canvas_width c;
                    tmp_height := canvas_height c;
                    tmp_put := {| id_width := id_width id;
                                  id_height := id_height id;
                                  id_data := newPixels |} |})
  end.

(** The [k]-th pixel of a buffer. *)
Definition pixel_at (pixels : list Z) (k : nat) : option (Z * Z * Z * Z) :=
  match nth_error pixels (4 * k), nth_error pixels (4 * k + 1),
        nth_error pixels (4 * k + 2), nth_error pixels (4 * k + 3) with
  | Some r, Some g, Some b, Some a => Some (r, g, b, a)
  | _, _, _, _ => None
  end.

(** The byte the loop stores for channel [c] of pixel [p]. *)
Definition tinted (l : list float) (pixels : list Z) (p c : nat) : Z :=
  ToUint8Clamp (read_px pixels (4 * p + c)
                * Num.of_undefined (nth_error l c) / 255).

(** The spec's words for one output channel: source byte [v] times tint
    level [t] over 255, reduced to an 8-bit integer.  [o] is such a
    reduction when it is a byte and the nearest integer to [v * t / 255]. *)
Definition scaled (v t o : Z) : Prop :=
  (0 <= o <= 255 /\ 2 * Z.abs (255 * o - v * t) <= 255)%Z.

(** The 256 byte values. *)
Definition bytes : list Z := map Z.of_nat (seq 0 256).

(** The stored byte for source byte [v] and tint level [t] is [v * t / 255]
    rounded half up (no quotient by 255 falls on a half). *)
Definition channel_ok (v t : Z) : bool :=
  (ToUint8Clamp (Num.of_Z v * Num.of_Z t / 255) =? (2 * v * t + 255) / 510)%Z.

(** *** [loadImage] *)

(** Modelled from the spec: a Bitmap has a width, a height and an RGBA8
    pixel buffer; [new p5.Image(w, h, this)] (image/p5.Image is not part of
    these sources) makes one of the requested size, backed by a fresh canvas
    of that size (transparent black). *)
Definition new_p5Image (w h : nat) : Img :=
  {| width := Num.of_Z (Z.of_nat w);
     height := Num.of_Z (Z.of_nat h);
     elt := None;
     canvas := Some {| canvas_width := w; canvas_height := h;
                       canvas_pixels := repeat 0%Z (4 * w * h) |} |}.

(** A function value, known by its identity; [None] stands for an argument
    that is not a function ([typeof f !== 'function']). *)
Definition fn := nat.

(** A [p5.Image] object is shared between the caller of [loadImage] and the
    handlers it installs: objects live in a heap and are named by reference. *)
Definition ref := nat.

(** The decoded picture the browser hands to [onload] through [img]. *)
Record Decoded := {
  dec_width : nat;
  dec_height : nat;
  dec_pixels : list Z
}.

(** The [new Image()] element of one [loadImage] call, with what its two
    handlers captured. *)
Record Loader := {
  ld_src : string;
  ld_crossOrigin : option string;
  ld_pImg : ref;
  ld_success : option fn;
  ld_failure : option fn;
  ld_decrement : option fn
}.

(** Calls that leave the library, in the order made (latest first). *)
Inductive Effect :=
| CallSuccess (f : fn) (pImg : ref)
| CallFailure (f : fn) (e : string)
| CallDecrementPreload (f : fn)
| FriendlyFileLoadError (code : Z) (src : string).

Record World := {
  heap : list Img;
  loading : list Loader;
  effects : list Effect
}.

Definition alloc (o : Img) : M World ref :=
  fun wd => Normal (List.length (heap wd),
                    {| heap := heap wd ++ [o]; loading := loading wd;
                       effects := effects wd |}).

Definition start_loading (l : Loader) : M World unit :=
  modify (fun wd => {| heap := heap wd; loading := l :: loading wd;
                       effects := effects wd |}).

Definition effect (e : Effect) : M World unit :=
  modify (fun wd => {| heap := heap wd; loading := loading wd;
                       effects := e :: effects wd |}).

Definition deref (r : ref) : M World Img :=
  fun wd => match nth_error (heap wd) r with
            | Some o => Normal (o, wd)
            | None => Throw (TypeError "undefined object")
            end.

Fixpoint update {A} (l : list A) (i : nat) (v : A) : list A :=
  match l, i with
  | [], _ => []
  | _ :: r, O => v :: r
  | a :: r, S i' => a :: update r i' v
  end.

Definition assign (r : ref) (o : Img) : M World unit :=
  modify (fun wd => {| heap := update (heap wd) r o; loading := loading wd;
                       effects := effects wd |}).

Definition fn_eqb (a b : option fn) : bool :=
  match a, b with
  | Some f, Some g => Nat.eqb f g
  | None, None => true
  | _, _ => false
  end.

(** [path.indexOf('data:image/') !== 0] *)
Definition not_data_uri (path : string) : bool :=
  negb (String.prefix "data:image/" path).

(** [loadImage(path, successCallback, failureCallback)]; [decrementPreload]
    is what [p5._getDecrementPreload] (core, not part of these sources)
    returned for the call: a function, or nothing. *)
Definition loadImage (path : string) (successCallback failureCallback : option fn)
    (decrementPreload : option fn) : M World ref :=
  pImg <- alloc (new_p5Image 1 1) ;;
  start_loading
    {| ld_src := path;
       ld_crossOrigin := if not_data_uri path then Some "Anonymous"%string else None;
       ld_pImg := pImg;
       ld_success := successCallback;
       ld_failure := failureCallback;
       ld_decrement := decrementPreload |} ;;;
  ret pImg.

Section WithCallbacks.

(** How a call of a function of the sketch ends: [None] when it returns,
    the error when it throws.  The callbacks are the sketch's code, not part
    of these sources. *)
Variable outcome : fn -> option error.

(** A call of the sketch's function [f], recorded as [e]. *)
Definition call (e : Effect) (f : fn) : M World unit :=
  effect e ;;;
  match outcome f with
  | None => ret tt
  | Some err => throw err
  end.

(** [img.onload], run by the browser once [img] is decoded. *)
Definition onload_calling (l : Loader) (img : Decoded) : M World unit :=
  pImg <- deref (ld_pImg l) ;;
  match canvas pImg with
  | None => throw (TypeError "Cannot set property of undefined")
  | Some _ =>
    assign (ld_pImg l)
      {| width := Num.of_Z (Z.of_nat (dec_width img));
         height := Num.of_Z (Z.of_nat (dec_height img));
         elt := elt pImg;
         canvas := Some {| canvas_width := dec_width img;
                           canvas_height := dec_height img;
                           canvas_pixels := dec_pixels img |} |} ;;;
    match ld_success l with
    | Some f => call (CallSuccess f (ld_pImg l)) f
    | None => ret tt
    end ;;;
    match ld_decrement l with
    | Some g =>
        if negb (fn_eqb (ld_success l) (ld_decrement l))
        then call (CallDecrementPreload g) g else ret tt
    | None => ret tt
    end
  end.

(** [img.onerror], run by the browser when the load fails with event [e]. *)
Definition onerror_calling (l : Loader) (e : string) : M World unit :=
  effect (FriendlyFileLoadError 0 (ld_src l)) ;;;
  match ld_failure l with
  | Some f =>
      if negb (fn_eqb (ld_failure l) (ld_decrement l))
      then call (CallFailure f e) f else ret tt
  | None => ret tt
  end.

End WithCallbacks.

(** The two handlers when every callback of the sketch returns. *)
Definition onload : Loader -> Decoded -> M World unit :=
  onload_calling (fun _ => None).

Definition onerror : Loader -> string -> M World unit :=
  onerror_calling (fun _ => None).

(** What the browser may do next with a pending load. *)
Inductive BrowserEvent :=
| Load (l : Loader) (img : Decoded)
| Error (l : Loader) (e : string).

Definition fire (ev : BrowserEvent) : M World unit :=
  match ev with
  | Load l img => onload l img
  | Error l e => onerror l e
  end.

(** The browser delivering events one after the other. *)
Fixpoint browse (evs : list BrowserEvent) : M World unit :=
  match evs with
  | [] => ret tt
  | ev :: evs' => fire ev ;;; browse evs'
  end.

Definition is_error (ev : BrowserEvent) : Prop :=
  match ev with
  | Error _ _ => True
  | Load _ _ => False
  end.


End Image.


(** ** Camera commands (submodule Camera of Lights, Camera) *)

Module Camera.

Import Js.
Open Scope float_scope.
Open Scope js_scope.

(** [Math.max] on two numbers. *)
Definition Math_max (a b : float) : float :=
  if is_nan a || is_nan b then nan
  else if a <? b then b
  else if b <? a then a
  else if get_sign a then b else a.

(** The value [_curCamera] holds once a projection was set by the sketch:
    the spec's projection kind Custom. *)
Definition custom : value := VStr "custom".

Section WithMatrix.

(** [p5.Matrix] (webgl/p5.Matrix is not part of these sources): the type of
    matrices and the four operations the camera commands call.  The methods
    update their receiver in place; here they return the updated matrix. *)
Variable Matrix : Type.
Variable identity : Matrix.
Variable mat_perspective : Matrix -> float -> float -> float -> float -> Matrix.
Variable mat_ortho :
  Matrix -> float -> float -> float -> float -> float -> float -> Matrix.
Variable mat_translate : Matrix -> float -> float -> float -> Matrix.

(** The WebGL renderer's camera state: the spec's view matrix, projection
    matrix and projection kind. *)
Record RendererGL := {
  uMVMatrix : Matrix;
  uPMatrix : Matrix;
  _curCamera : value
}.

(** The sketch instance the commands are methods of. *)
Record p5 := {
  PI : float;
  tan : float -> float;
  width : float;
  height : float;
  _renderer : RendererGL
}.

Definition set_renderer (f : RendererGL -> RendererGL) (this : p5) : p5 :=
  {| PI := PI this; tan := tan this; width := width this;
     height := height this; _renderer := f (_renderer this) |}.

Definition set_uPMatrix (m : Matrix) (r : RendererGL) : RendererGL :=
  {| uMVMatrix := uMVMatrix r; uPMatrix := m; _curCamera := _curCamera r |}.

Definition set_curCamera (v : value) (r : RendererGL) : RendererGL :=
  {| uMVMatrix := uMVMatrix r; uPMatrix := uPMatrix r; _curCamera := v |}.

(** Modelled from the spec: the renderer's [translate] (webgl/p5.RendererGL is
    not part of these sources) composes a translation into the view matrix
    and has no other effect. *)
Definition renderer_translate (x y z : float) (r : RendererGL) : RendererGL :=
  {| uMVMatrix := mat_translate (uMVMatrix r) x y z;
     uPMatrix := uPMatrix r; _curCamera := _curCamera r |}.

Definition camera (x y z : float) : M p5 unit :=
  modify (set_renderer (renderer_translate (- x) (- y) (- z))).

Definition perspective (fovy aspect near far : option float) : M p5 unit :=
  this <- get ;;
  let fovy := Num.or_default fovy (60 / 180 * PI this) in
  let aspect := Num.or_default aspect (width this / height this) in
  let near := Num.or_default near
                (height this / 2 / tan this (fovy / 2) * 0x1.999999999999ap-4) in
  let far := Num.or_default far (height this / 2 / tan this (fovy / 2) * 10) in
  modify (set_renderer (set_uPMatrix identity)) ;;;
  modify (set_renderer (fun r =>
    set_uPMatrix (mat_perspective (uPMatrix r) fovy aspect near far) r)) ;;;
  modify (set_renderer (set_curCamera custom)).

Definition ortho (left right bottom top near far : option float) : M p5 unit :=
  this <- get ;;
  let left := Num.or_default left (- width this / 2) in
  let right := Num.or_default right (width this / 2) in
  let bottom := Num.or_default bottom (- height this / 2) in
  let top := Num.or_default top (height this / 2) in
  let near := Num.or_default near 0 in
  let far := Num.or_default far (Math_max (width this) (height this)) in
  modify (set_renderer (set_uPMatrix identity)) ;;;
  modify (set_renderer (fun r =>
    set_uPMatrix (mat_ortho (uPMatrix r) left right bottom top near far) r)) ;;;
  modify (set_renderer (set_curCamera custom)).

(** The sketch with another renderer state. *)
Definition with_renderer (this : p5) (r : RendererGL) : p5 :=
  set_renderer (fun _ => r) this.

(** The parameters [perspective] passes on, after defaulting. *)
Definition fovy_used (this : p5) (fovy : option float) : float :=
  Num.or_default fovy (60 / 180 * PI this).
Definition aspect_used (this : p5) (aspect : option float) : float :=
  Num.or_default aspect (width this / height this).
Definition near_used (this : p5) (fovy near : option float) : float :=
  Num.or_default near
    (height this / 2 / tan this (fovy_used this fovy / 2) * 0x1.999999999999ap-4).
Definition far_used (this : p5) (fovy far : option float) : float :=
  Num.or_default far (height this / 2 / tan this (fovy_used this fovy / 2) * 10).

(** The commands of the camera controller, and their runs. *)
Inductive command :=
| Camera (x y z : float)
| Perspective (fovy aspect near far : option float)
| Ortho (left right bottom top near far : option float).

Definition exec (c : command) : M p5 unit :=
  match c with
  | Camera x y z => camera x y z
  | Perspective fovy aspect near far => perspective fovy aspect near far
  | Ortho l r b t n f => ortho l r b t n f
  end.

Fixpoint run (cs : list command) : M p5 unit :=
  match cs with
  | [] => ret tt
  | c :: cs' => exec c ;;; run cs'
  end.

End WithMatrix.

(** The spec's InvalidProjectionParameters, on the parameters a caller
    passes: zero or negative aspect, non-positive near, far not beyond near,
    or a field of view outside (0, pi). *)
Definition invalid_perspective (fovy aspect near far : float) : bool :=
  (aspect <=? 0) || (near <=? 0) || (far <=? near)
  || (fovy <=? 0) || (Num.Math_PI <=? fovy).

(** For [ortho], the clip distances are what can be invalid. *)
Definition invalid_ortho (near far : float) : bool :=
  far <=? near.

End Camera.

(** ** Example inputs *)

(** Modelled from the spec: Matrix4x4, 16 floating-point coefficients in
    column-major order (webgl/p5.Matrix is not part of these sources).
    [identity] is the multiplicative unit; [translate] composes a translation
    by (dx, dy, dz) into [m]; [perspective] and [ortho] replace the
    coefficients by the standard projections, [ortho] mapping the near and
    far corners of its box to the clip-space corners (-1,-1,-1) and (1,1,1). *)
Module Mat4.

Open Scope float_scope.

Definition Matrix := list float.

Definition coef (m : Matrix) (i : nat) : float := nth i m nan.

Definition identity : Matrix :=
  [1; 0; 0; 0;  0; 1; 0; 0;  0; 0; 1; 0;  0; 0; 0; 1].

Definition translate (m : Matrix) (dx dy dz : float) : Matrix :=
  let c := coef m in
  [c 0%nat; c 1%nat; c 2%nat; c 3%nat;
   c 4%nat; c 5%nat; c 6%nat; c 7%nat;
   c 8%nat; c 9%nat; c 10%nat; c 11%nat;
   c 12%nat + (c 0%nat * dx + c 4%nat * dy + c 8%nat * dz);
   c 13%nat + (c 1%nat * dx + c 5%nat * dy + c 9%nat * dz);
   c 14%nat + (c 2%nat * dx + c 6%nat * dy + c 10%nat * dz);
   c 15%nat + (c 3%nat * dx + c 7%nat * dy + c 11%nat * dz)].

(** The translation component of a matrix. *)
Definition translation (m : Matrix) : float * float * float :=
  (coef m 12, coef m 13, coef m 14).

Section WithTan.

Variable Math_tan : float -> float.

Definition perspective (_ : Matrix) (fovy aspect near far : float) : Matrix :=
  let f := 1 / Math_tan (fovy / 2) in
  let nf := 1 / (near - far) in
  [f / aspect; 0; 0; 0;
   0; f; 0; 0;
   0; 0; (far + near) * nf; -1;
   0; 0; 2 * far * near * nf; 0].

End WithTan.

Definition ortho (_ : Matrix) (left right bottom top near far : float) : Matrix :=
  let rl := 1 / (right - left) in
  let tb := 1 / (top - bottom) in
  let fn := 1 / (far - near) in
  [2 * rl; 0; 0; 0;
   0; 2 * tb; 0; 0;
   0; 0; 2 * fn; 0;
   - (right + left) * rl; - (top + bottom) * tb; - (far + near) * fn; 1].

End Mat4.

Module Examples.

Import Js.
Open Scope float_scope.

(** [Math.tan] is implementation-approximated; the examples use the quotient
    of the Maclaurin polynomials of sine and cosine, [n] terms each. *)
Fixpoint sin_cos_series (n : nat) (k : float) (x2 sterm cterm s c : float)
    : float * float :=
  match n with
  | O => (s, c)
  | S n' =>
    let cterm' := - cterm * x2 / ((k + 1) * (k + 2)) in
    let sterm' := - sterm * x2 / ((k + 2) * (k + 3)) in
    sin_cos_series n' (k + 2) x2 sterm' cterm' (s + sterm') (c + cterm')
  end.

Definition Math_tan (a : float) : float :=
  let '(s, c) := sin_cos_series 14 0 (a * a) a 1 a 1 in s / c.

(** A sketch after [createCanvas(100, 100, WEBGL)]: both matrices are the
    identity and no camera was chosen yet. *)
Definition sketch : Camera.p5 Mat4.Matrix :=
  {| Camera.PI := Num.Math_PI;
     Camera.tan := Math_tan;
     Camera.width := 100;
     Camera.height := 100;
     Camera._renderer :=
       {| Camera.uMVMatrix := Mat4.identity;
          Camera.uPMatrix := Mat4.identity;
          Camera._curCamera := VUndefined |} |}.

Definition camera := Camera.camera Mat4.translate.
Definition perspective :=
  Camera.perspective Mat4.identity (Mat4.perspective Math_tan).
Definition ortho := Camera.ortho Mat4.identity Mat4.ortho.
Definition run :=
  Camera.run Mat4.identity (Mat4.perspective Math_tan) Mat4.ortho Mat4.translate.

(** A 200 x 2 bitmap with no DOM element behind it and an all-white
    canvas, and a renderer in its initial state. *)
Definition bitmap200 : Image.Img :=
  {| Image.width := 200; Image.height := 2; Image.elt := None;
     Image.canvas := Some {| Image.canvas_width := 200;
                             Image.canvas_height := 2;
                             Image.canvas_pixels := repeat 255%Z (4 * 200 * 2) |} |}.

(** One opaque white pixel. *)
Definition white : Image.Img :=
  {| Image.width := 1; Image.height := 1; Image.elt := None;
     Image.canvas := Some {| Image.canvas_width := 1;
                             Image.canvas_height := 1;
                             Image.canvas_pixels := [255; 255; 255; 255]%Z |} |}.

(** A playing video that was never copied to a canvas. *)
Definition video : Image.Img :=
  {| Image.width := 320; Image.height := 240;
     Image.elt := Some {| Image.videoWidth := Some 640;
                          Image.videoHeight := Some 480;
                          Image.elt_width := 320;
                          Image.style_width := EmptyString |};
     Image.canvas := None |}.

Definition renderer0 : Image.Renderer :=
  {| Image._tint := None; Image._imageMode := Image.constants.CORNER;
     Image._drawn := [] |}.

Definition world0 : Image.World :=
  {| Image.heap := []; Image.loading := []; Image.effects := [] |}.

End Examples.

(** ** Runs and observations *)

Module Observe.

Import Js.
Open Scope js_scope.

(** A placement mode [canvas.modeAdjust] knows. *)
Definition recognized (m : value) : Prop :=
  m = Image.constants.CORNER \/ m = Image.constants.CORNERS
  \/ m = Image.constants.CENTER.

(** [imageMode(m1); imageMode(m2); ...] *)
Fixpoint imageModes (ms : list value) : M Image.Renderer unit :=
  match ms with
  | [] => ret tt
  | m :: ms' => Image.imageMode m ;;; imageModes ms'
  end.

(** The effect is a call of the function [g]. *)
Definition invokes (g : Image.fn) (e : Image.Effect) : bool :=
  match e with
  | Image.CallSuccess f _ => Nat.eqb f g
  | Image.CallFailure f _ => Nat.eqb f g
  | Image.CallDecrementPreload f => Nat.eqb f g
  | Image.FriendlyFileLoadError _ _ => false
  end.

(** How often [g] is called in a list of effects. *)
Definition invocations (g : Image.fn) (es : list Image.Effect) : nat :=
  List.length (filter (invokes g) es).

Definition is_camera (c : Camera.command) : bool :=
  match c with
  | Camera.Camera _ _ _ => true
  | _ => false
  end.

Definition is_projection (c : Camera.command) : bool :=
  negb (is_camera c).

Section WithTranslate.

Variable Matrix : Type.
Variable mat_translate : Matrix -> float -> float -> float -> Matrix.

(** The translations of the camera commands of a run, composed in order
    into a view matrix, each by the negated position. *)
Fixpoint view_after (cs : list Camera.command) (m : Matrix) : Matrix :=
  match cs with
  | [] => m
  | Camera.Camera x y z :: cs' =>
      view_after cs' (mat_translate m (- x)%float (- y)%float (- z)%float)
  | _ :: cs' => view_after cs' m
  end.

End WithTranslate.

End Observe.

(** * Properties *)

(** ** The order on numbers *)

Module NumFacts.

Open Scope float_scope.

(** *** The order on [spec_float] *)

Lemma SFcompare_antisym (a b : spec_float) :
  SFcompare b a = option_map CompOpp (SFcompare a b).
Proof.
  destruct a as [sa|sa| |sa ma ea], b as [sb|sb| |sb mb eb]; simpl;
    try reflexivity;
    try (destruct sa; reflexivity);
    try (destruct sb; reflexivity);
    try (destruct sa, sb; reflexivity).
  destruct sa, sb; simpl; try reflexivity;
    rewrite (Z.compare_antisym ea eb);
    destruct (ea ?= eb)%Z; simpl; try reflexivity;
    change PosDef.Pos.compare_cont with Pos.compare_cont;
    rewrite (Pos.compare_cont_antisym ma mb Eq); simpl;
    try rewrite CompOpp_involutive; reflexivity.
Qed.

Lemma SFcompare_refl (a : spec_float) :
  SFcompare a a = match a with S754_nan => None | _ => Some Eq end.
Proof.
  destruct a as [s|s| |s m e]; simpl; try reflexivity.
  - destruct s; reflexivity.
  - rewrite Z.compare_refl.
    change PosDef.Pos.compare_cont with Pos.compare_cont.
    rewrite Pos.compare_cont_refl. destruct s; reflexivity.
Qed.

Lemma SFcompare_nan_r (a : spec_float) : SFcompare a S754_nan = None.
Proof. destruct a; reflexivity. Qed.

(** *** The order on numbers *)

Lemma leb_not_gt (x y : float) : (x <=? y) = true -> (y <? x) = false.
Proof.
  rewrite FloatAxioms.leb_spec, FloatAxioms.ltb_spec.
  unfold SFleb, SFltb. rewrite (SFcompare_antisym (Prim2SF x) (Prim2SF y)).
  destruct (SFcompare (Prim2SF x) (Prim2SF y)) as [[]|]; simpl; congruence.
Qed.

Lemma ltb_irrefl (x : float) : (x <? x) = false.
Proof.
  rewrite FloatAxioms.ltb_spec. unfold SFltb. rewrite SFcompare_refl.
  destruct (Prim2SF x); reflexivity.
Qed.

Lemma ltb_not_eq (x y : float) : (x <? y) = true -> (y =? x) = false.
Proof.
  rewrite FloatAxioms.eqb_spec, FloatAxioms.ltb_spec.
  unfold SFeqb, SFltb. rewrite (SFcompare_antisym (Prim2SF x) (Prim2SF y)).
  destruct (SFcompare (Prim2SF x) (Prim2SF y)) as [[]|]; simpl; congruence.
Qed.

Lemma ltb_not_nan_r (x y : float) : (x <? y) = true -> is_nan y = false.
Proof.
  unfold is_nan.
  rewrite FloatAxioms.eqb_spec, FloatAxioms.ltb_spec. unfold SFeqb, SFltb.
  rewrite SFcompare_refl.
  destruct (Prim2SF y); try reflexivity.
  rewrite SFcompare_nan_r. discriminate.
Qed.

(** A number strictly above zero is truthy. *)
Lemma pos_truthy (x : float) : (0 <? x) = true -> Num.truthy x = true.
Proof.
  intros H.
  unfold Num.truthy.
  rewrite (ltb_not_eq H), (ltb_not_nan_r H). reflexivity.
Qed.

(** [a || d] when [a] is a falsy number. *)
Lemma or_default_falsy (v d : float) :
  Num.truthy v = false -> Num.or_default (Some v) d = d.
Proof. intros H. unfold Num.or_default. rewrite H. reflexivity. Qed.

Lemma or_default_truthy (v d : float) :
  Num.truthy v = true -> Num.or_default (Some v) d = v.
Proof. intros H. unfold Num.or_default. rewrite H. reflexivity. Qed.

End NumFacts.

Module JsFacts.

Import Js.

Lemma returns_not_throws {St A} (m : M St A) (s : St) :
  returns m s -> ~ throws m s.
Proof. intros (a & s' & H) (e & H'). congruence. Qed.

Lemma strict_eq_str (m : value) (s : string) :
  strict_eq m (VStr s) = true <-> m = VStr s.
Proof.
  destruct m; simpl; split; intros H; try discriminate.
  - apply String.eqb_eq in H. congruence.
  - injection H as ->. apply String.eqb_refl.
Qed.

End JsFacts.

(** ** Displaying images *)

Module ImageFacts.

Import Js Image.
Open Scope float_scope.

(** *** The source sub-rectangle *)

(** Inside (0, iVal) the requested size is kept. *)
Lemma sAssign_inside (sVal iVal : float) :
  (0 <? sVal) = true -> (sVal <? iVal) = true -> _sAssign sVal iVal = sVal.
Proof. intros H0 H1. unfold _sAssign. rewrite H0, H1. reflexivity. Qed.

(** At or below zero, and at or above [iVal], the natural size is used. *)
Lemma sAssign_outside (sVal iVal : float) :
  (sVal <=? 0) = true \/ (iVal <=? sVal) = true -> _sAssign sVal iVal = iVal.
Proof.
  intros [H | H]; unfold _sAssign; rewrite (NumFacts.leb_not_gt H);
    rewrite ?andb_false_r; reflexivity.
Qed.

(** The two steps of [image] on a requested size [s]: [s || def], then
    [_sAssign]. *)
Lemma resolve_inside (s def : float) :
  (0 <? s) = true -> (s <? def) = true ->
  _sAssign (Num.or_default (Some s) def) def = s.
Proof.
  intros H0 H1. rewrite (@NumFacts.or_default_truthy s def (NumFacts.pos_truthy H0)).
  apply sAssign_inside; assumption.
Qed.

Lemma resolve_outside (s def : float) :
  (s <=? 0) = true \/ (def <=? s) = true ->
  _sAssign (Num.or_default (Some s) def) def = def.
Proof.
  intros H. unfold Num.or_default. destruct (Num.truthy s).
  - apply sAssign_outside; assumption.
  - unfold _sAssign. rewrite NumFacts.ltb_irrefl, andb_false_r. reflexivity.
Qed.

(** What [image] hands to the renderer. *)
Lemma image_draws modeAdjust img dx dy dWidth dHeight sx sy sWidth sHeight r :
  image modeAdjust img dx dy dWidth dHeight sx sy sWidth sHeight r =
  Normal (tt, renderer_image
    (let vals := modeAdjust dx dy (Num.or_default dWidth (defW img))
                   (Num.or_default dHeight (defH img)) (_imageMode r) in
     {| d_img := img;
        d_sx := Num.or_default sx 0 * pd img;
        d_sy := Num.or_default sy 0 * pd img;
        d_sw := _sAssign (Num.or_default sWidth (defW img)) (defW img) * pd img;
        d_sh := _sAssign (Num.or_default sHeight (defH img)) (defH img) * pd img;
        d_x := x vals; d_y := y vals; d_w := w vals; d_h := h vals |}) r).
Proof. reflexivity. Qed.

(** C1.  For every requested source width [sw] and height [sh], [image]
    hands the renderer a source size [rw * pd], [rh * pd] where [pd] is the
    pixel-density factor and the resolved [rw] is [sw] itself when
    [0 < sw < defW] and [defW] when [sw <= 0] or [sw >= defW]; [rh] follows
    the same rule against [defH], independently. *)
Theorem image_source_size_clamped :
  forall modeAdjust img dx dy dWidth dHeight sx sy (sw sh : float) r,
  exists rw rh c,
    image modeAdjust img dx dy dWidth dHeight sx sy (Some sw) (Some sh) r
      = Normal (tt, renderer_image c r) /\
    d_sw c = rw * pd img /\
    d_sh c = rh * pd img /\
    ((0 <? sw) = true /\ (sw <? defW img) = true -> rw = sw) /\
    ((sw <=? 0) = true \/ (defW img <=? sw) = true -> rw = defW img) /\
    ((0 <? sh) = true /\ (sh <? defH img) = true -> rh = sh) /\
    ((sh <=? 0) = true \/ (defH img <=? sh) = true -> rh = defH img).
Proof.
  intros. rewrite image_draws.
  eexists _, _, _. split; [reflexivity|]. cbn [d_sw d_sh].
  split; [reflexivity|]. split; [reflexivity|].
  repeat split.
  - intros [H0 H1]. apply resolve_inside; assumption.
  - apply resolve_outside.
  - intros [H0 H1]. apply resolve_inside; assumption.
  - apply resolve_outside.
Qed.

(** With [naturalWidth = 200], a requested [sWidth] of 0 and one of 500 both
    resolve to 200 (the bitmap has no element behind it, so [pd] is 1). *)
Lemma image_source_size_clamped_witness :
  (exists c,
     image modeAdjust Examples.bitmap200 0 0 None None None None (Some 0) (Some 1)
       Examples.renderer0 = Normal (tt, renderer_image c Examples.renderer0) /\
     d_sw c = 200 /\ d_sh c = 1) /\
  (exists c,
     image modeAdjust Examples.bitmap200 0 0 None None None None (Some 500) (Some 2)
       Examples.renderer0 = Normal (tt, renderer_image c Examples.renderer0) /\
     d_sw c = 200 /\ d_sh c = 2).
Proof.
  split.
  - destruct (image_source_size_clamped modeAdjust Examples.bitmap200 0 0
                None None None None 0 1 Examples.renderer0)
      as (rw & rh & c & Hc & Hw & Hh & _ & Hout & Hin & _).
    exists c. split; [exact Hc|].
    rewrite Hw, Hh, Hout, Hin.
    + split; reflexivity.
    + split; reflexivity.
    + left; reflexivity.
  - destruct (image_source_size_clamped modeAdjust Examples.bitmap200 0 0
                None None None None 500 2 Examples.renderer0)
      as (rw & rh & c & Hc & Hw & Hh & _ & Hout & _ & Hout').
    exists c. split; [exact Hc|].
    rewrite Hw, Hh, Hout, Hout'.
    + split; reflexivity.
    + right; reflexivity.
    + right; reflexivity.
Defined.

(** *** The placement mode *)

(** C7.  [imageMode] never raises; it stores each of the three recognised
    constants, and any other value leaves the stored mode (and the rest of
    the renderer) as it was. *)
Theorem imageMode_recognized_or_ignored :
  forall (m : value) (r : Renderer),
    (m = constants.CORNER \/ m = constants.CORNERS \/ m = constants.CENTER ->
     imageMode m r = Normal (tt, set_imageMode m r) /\
     _imageMode (set_imageMode m r) = m) /\
    (m <> constants.CORNER -> m <> constants.CORNERS -> m <> constants.CENTER ->
     imageMode m r = Normal (tt, r)).
Proof.
  intros m r. split.
  - intros H. split; [|reflexivity].
    destruct H as [-> | [-> | ->]]; reflexivity.
  - intros H1 H2 H3. unfold imageMode.
    destruct (strict_eq m constants.CORNER) eqn:E1.
    { apply JsFacts.strict_eq_str in E1. contradiction. }
    destruct (strict_eq m constants.CORNERS) eqn:E2.
    { apply JsFacts.strict_eq_str in E2. contradiction. }
    destruct (strict_eq m constants.CENTER) eqn:E3.
    { apply JsFacts.strict_eq_str in E3. contradiction. }
    reflexivity.
Qed.

(** [imageMode(CENTER)] is stored; [imageMode("middle")] and [imageMode(2)]
    after it change nothing. *)
Lemma imageMode_recognized_or_ignored_witness :
  imageMode constants.CENTER Examples.renderer0
    = Normal (tt, set_imageMode constants.CENTER Examples.renderer0) /\
  imageMode (VStr "middle") (set_imageMode constants.CENTER Examples.renderer0)
    = Normal (tt, set_imageMode constants.CENTER Examples.renderer0) /\
  imageMode (VNum 2) (set_imageMode constants.CENTER Examples.renderer0)
    = Normal (tt, set_imageMode constants.CENTER Examples.renderer0).
Proof.
  split; [|split].
  - apply (imageMode_recognized_or_ignored constants.CENTER Examples.renderer0).
    right; right; reflexivity.
  - apply (imageMode_recognized_or_ignored (VStr "middle")); discriminate.
  - apply (imageMode_recognized_or_ignored (VNum 2)); discriminate.
Defined.

(** *** Tinting a source without a pixel buffer *)

(** C8.  A bitmap with no readable pixel buffer (no canvas) comes back from
    the tint compositor as it is: the call returns normally, whatever the
    tint, and the renderer is untouched. *)
Theorem tint_passes_through_without_canvas :
  forall (img : Img) (r : Renderer),
    canvas img = None ->
    _getTintedImageCanvas img r = Normal (SImg img, r).
Proof.
  intros img r H. unfold _getTintedImageCanvas. rewrite H. reflexivity.
Qed.

(** A video that was never copied to a canvas, with and without a tint. *)
Lemma tint_passes_through_without_canvas_witness :
  _getTintedImageCanvas Examples.video Examples.renderer0
    = Normal (SImg Examples.video, Examples.renderer0) /\
  _getTintedImageCanvas Examples.video
      (set_tint (Some [0; 153; 204; 255]) Examples.renderer0)
    = Normal (SImg Examples.video,
              set_tint (Some [0; 153; 204; 255]) Examples.renderer0).
Proof.
  split; apply tint_passes_through_without_canvas; reflexivity.
Defined.

(** *** Tinting a canvas *)

Lemma store_length (a : list Z) (i : nat) (v : Z) :
  List.length (store a i v) = List.length a.
Proof.
  revert i; induction a as [|b a IH]; intros [|i]; simpl; auto.
Qed.

Lemma nth_error_store (a : list Z) (i j : nat) (v : Z) :
  nth_error (store a i v) j =
  if (j =? i)%nat && (j <? List.length a)%nat then Some v else nth_error a j.
Proof.
  revert i j; induction a as [|b a IH]; intros i j.
  - destruct i, j; simpl; rewrite ?andb_false_r; reflexivity.
  - destruct i as [|i], j as [|j]; simpl; try reflexivity.
    rewrite IH. reflexivity.
Qed.

Ltac nat_tests :=
  repeat match goal with
  | |- context [Nat.eqb ?a ?b] => destruct (Nat.eqb_spec a b); try lia
  | |- context [Nat.ltb ?a ?b] => destruct (Nat.ltb_spec a b); try lia
  | |- context [Nat.leb ?a ?b] => destruct (Nat.leb_spec a b); try lia
  end.

(** One iteration writes the four channels of pixel [k], if they lie inside
    the new buffer, and nothing else. *)
Lemma tint_pixel_spec (l : list float) (pixels newPixels : list Z) (k : nat) :
  exists np,
    tint_pixel (4 * k) pixels (Some l) newPixels = Normal np /\
    List.length np = List.length newPixels /\
    forall p c, (c < 4)%nat ->
      nth_error np (4 * p + c) =
      if (p =? k)%nat
      then if (4 * p + c <? List.length newPixels)%nat
           then Some (tinted l pixels p c) else None
      else nth_error newPixels (4 * p + c).
Proof.
  unfold tint_pixel, tint_at. eexists. split; [reflexivity|]. split.
  - rewrite !store_length. reflexivity.
  - intros p c Hc. rewrite !nth_error_store, !store_length. unfold tinted.
    destruct (Nat.eqb_spec p k) as [-> | Hpk].
    + destruct c as [|[|[|[|c]]]]; try lia; rewrite ?Nat.add_0_r;
        nat_tests; cbn [andb]; try reflexivity;
        apply nth_error_None; lia.
    + nat_tests; reflexivity.
Qed.

Lemma tint_loop_S fuel i pixels t newPixels :
  tint_loop (S fuel) i pixels t newPixels =
  if (i <? List.length pixels)%nat then
    match tint_pixel i pixels t newPixels with
    | Throw e => Throw e
    | Normal np => tint_loop fuel (i + 4) pixels t np
    end
  else Normal newPixels.
Proof. reflexivity. Qed.

(** The loop, started at pixel [k] with enough fuel, tints every pixel from
    [k] to the end of the source buffer. *)
Lemma tint_loop_spec (l : list float) (pixels : list Z) (n : nat) :
  List.length pixels = (4 * n)%nat ->
  forall fuel k newPixels,
    (List.length pixels <= 4 * k + 4 * fuel)%nat ->
    exists out,
      tint_loop fuel (4 * k) pixels (Some l) newPixels = Normal out /\
      List.length out = List.length newPixels /\
      forall p c, (c < 4)%nat ->
        nth_error out (4 * p + c) =
        if (k <=? p)%nat && (p <? n)%nat
        then if (4 * p + c <? List.length newPixels)%nat
             then Some (tinted l pixels p c) else None
        else nth_error newPixels (4 * p + c).
Proof.
  intros Hlen. induction fuel as [|fuel IH]; intros k newPixels Hfuel.
  - exists newPixels. split; [reflexivity|]. split; [reflexivity|].
    intros p c Hc. nat_tests; reflexivity.
  - rewrite tint_loop_S.
    destruct (Nat.ltb_spec (4 * k) (List.length pixels)) as [Hlt | Hge].
    + destruct (tint_pixel_spec l pixels newPixels k) as (np & -> & Hnp & Hpx).
      replace (4 * k + 4)%nat with (4 * S k)%nat by lia.
      destruct (IH (S k) np ltac:(lia)) as (out & -> & Hout & Hall).
      exists out. split; [reflexivity|]. split; [congruence|].
      intros p c Hc. rewrite (Hall p c Hc), Hnp, (Hpx p c Hc).
      nat_tests; reflexivity.
    + exists newPixels. split; [reflexivity|]. split; [reflexivity|].
      intros p c Hc. nat_tests; reflexivity.
Qed.

Lemma In_bytes (v : Z) : (0 <= v <= 255)%Z -> In v bytes.
Proof.
  intros H. apply in_map_iff. exists (Z.to_nat v). split; [lia|].
  apply in_seq. lia.
Qed.

(** Every byte against every tint level, by evaluation of the binary64
    product, quotient and conversion. *)
Lemma channel_table :
  forallb (fun v => forallb (channel_ok v) bytes) bytes = true.
Proof. vm_compute. reflexivity. Qed.

Lemma channel_rounds (v t : Z) :
  (0 <= v <= 255)%Z -> (0 <= t <= 255)%Z ->
  ToUint8Clamp (Num.of_Z v * Num.of_Z t / 255) = ((2 * v * t + 255) / 510)%Z.
Proof.
  intros Hv Ht. pose proof channel_table as H.
  rewrite forallb_forall in H. specialize (H v (In_bytes Hv)).
  rewrite forallb_forall in H. specialize (H t (In_bytes Ht)).
  apply Z.eqb_eq in H. exact H.
Qed.

Lemma rounded_scaled (v t : Z) :
  (0 <= v <= 255)%Z -> (0 <= t <= 255)%Z ->
  scaled v t ((2 * v * t + 255) / 510).
Proof.
  intros Hv Ht. unfold scaled.
  assert (Hvt : (0 <= v * t <= 65025)%Z) by nia.
  pose proof (Z.div_mod (2 * v * t + 255) 510 ltac:(lia)) as Hdm.
  pose proof (Z.mod_pos_bound (2 * v * t + 255) 510 ltac:(lia)) as Hm.
  set (q := ((2 * v * t + 255) / 510)%Z) in *.
  set (m := ((2 * v * t + 255) mod 510)%Z) in *.
  lia.
Qed.

Lemma pixel_at_Some (pixels : list Z) (k : nat) (r g b a : Z) :
  pixel_at pixels k = Some (r, g, b, a) ->
  nth_error pixels (4 * k + 0) = Some r /\
  nth_error pixels (4 * k + 1) = Some g /\
  nth_error pixels (4 * k + 2) = Some b /\
  nth_error pixels (4 * k + 3) = Some a.
Proof.
  unfold pixel_at. rewrite Nat.add_0_r.
  destruct (nth_error pixels (4 * k)), (nth_error pixels (4 * k + 1)),
    (nth_error pixels (4 * k + 2)), (nth_error pixels (4 * k + 3));
    intros H; try discriminate.
  injection H as -> -> -> ->. repeat split.
Qed.

(** The stored byte for channel [c] of pixel [p], when the source byte is
    [v] and the tint level is the integer [t]. *)
Lemma tinted_scaled (l : list float) (pixels : list Z) (p c : nat) (v t : Z) :
  nth_error pixels (4 * p + c) = Some v ->
  nth_error l c = Some (Num.of_Z t) ->
  (0 <= v <= 255)%Z -> (0 <= t <= 255)%Z ->
  scaled v t (tinted l pixels p c).
Proof.
  intros Hpx Hl Hv Ht. unfold tinted, read_px. rewrite Hpx, Hl.
  cbn [Num.of_undefined]. rewrite (channel_rounds Hv Ht).
  apply rounded_scaled; assumption.
Qed.

Lemma positive_size (w h : nat) :
  (0 < w)%nat -> (0 < h)%nat -> ((w =? 0)%nat || (h =? 0)%nat) = false.
Proof.
  intros Hw Hh.
  destruct (Nat.eqb_spec w 0); [lia|]. destruct (Nat.eqb_spec h 0); [lia|].
  reflexivity.
Qed.

Lemma byte_at (pixels : list Z) (j : nat) (v : Z) :
  Forall (fun v => 0 <= v <= 255)%Z pixels ->
  nth_error pixels j = Some v -> (0 <= v <= 255)%Z.
Proof.
  intros H Hj. rewrite Forall_forall in H. apply H.
  eapply nth_error_In; eassumption.
Qed.

(** The [ImageData] put into the new canvas, byte by byte: on a canvas of
    positive size, whose buffer holds four bytes per pixel, the call returns
    normally and every channel of every pixel holds the byte the loop
    computes for it. *)
Lemma tinted_bytes (img : Img) (c : Canvas) (r : Renderer) (l : list float) :
  canvas img = Some c ->
  _tint r = Some l ->
  (0 < canvas_width c)%nat -> (0 < canvas_height c)%nat ->
  List.length (canvas_pixels c) = (4 * canvas_width c * canvas_height c)%nat ->
  exists out,
    _getTintedImageCanvas img r
      = Normal (SCanvas {| tmp_width := canvas_width c;
                           tmp_height := canvas_height c;
                           tmp_put := {| id_width := canvas_width c;
                                         id_height := canvas_height c;
                                         id_data := out |} |}, r) /\
    List.length out = List.length (canvas_pixels c) /\
    forall k pr pg pb pa,
      pixel_at (canvas_pixels c) k = Some (pr, pg, pb, pa) ->
      pixel_at out k =
        Some (tinted l (canvas_pixels c) k 0, tinted l (canvas_pixels c) k 1,
              tinted l (canvas_pixels c) k 2, tinted l (canvas_pixels c) k 3).
Proof.
  intros Hc Ht Hw Hh Hlen.
  set (n := (canvas_width c * canvas_height c)%nat).
  assert (Hn : List.length (canvas_pixels c) = (4 * n)%nat) by (unfold n; lia).
  destruct (@tint_loop_spec l (canvas_pixels c) n Hn
              (List.length (canvas_pixels c)) 0
              (repeat 0%Z (4 * canvas_width c * canvas_height c)) ltac:(lia))
    as (out & Hloop & Hout & Hall).
  rewrite repeat_length in Hout, Hall. rewrite <- Hlen in Hout, Hall.
  exists out. split; [|split; [exact Hout|]].
  - unfold _getTintedImageCanvas. rewrite Hc.
    unfold bind, get, lift, _toPixels, createImageData.
    rewrite (positive_size Hw Hh). cbn [id_data id_width id_height]. rewrite Ht.
    change 0%nat with (4 * 0)%nat at 1. rewrite Hloop. reflexivity.
  - intros k pr pg pb pa Hpx.
    destruct (@pixel_at_Some _ _ _ _ _ _ Hpx) as (H0 & H1 & H2 & H3).
    assert (Hk : (4 * k + 3 < List.length (canvas_pixels c))%nat)
      by (apply nth_error_Some; congruence).
    unfold pixel_at. rewrite <- (Nat.add_0_r (4 * k)) at 1.
    rewrite !Hall by lia.
    replace ((0 <=? k)%nat && (k <? n)%nat) with true
      by (symmetry; apply andb_true_intro; split;
          [apply Nat.leb_le | apply Nat.ltb_lt]; lia).
    repeat match goal with
    | |- context [Nat.ltb ?a ?b] => destruct (Nat.ltb_spec a b); try lia
    end.
    reflexivity.
Qed.

(** C2.  On a bitmap with a readable pixel buffer (a canvas of positive
    size, four bytes per pixel) and a tint whose four levels are integers in
    0..255, the tint compositor returns a new canvas of the same size, and
    the image data it has put into that canvas holds, for every pixel
    (r, g, b, a) of the source, the pixel (r*tintR/255, g*tintG/255,
    b*tintB/255, a*tintA/255), each channel on its own, reduced to the
    nearest 8-bit integer. *)
Theorem tint_scales_each_channel :
  forall (img : Img) (c : Canvas) (r : Renderer) (tr tg tb ta : Z),
    canvas img = Some c ->
    _tint r = Some [Num.of_Z tr; Num.of_Z tg; Num.of_Z tb; Num.of_Z ta] ->
    (0 <= tr <= 255)%Z -> (0 <= tg <= 255)%Z ->
    (0 <= tb <= 255)%Z -> (0 <= ta <= 255)%Z ->
    Forall (fun v => 0 <= v <= 255)%Z (canvas_pixels c) ->
    (0 < canvas_width c)%nat -> (0 < canvas_height c)%nat ->
    List.length (canvas_pixels c) = (4 * canvas_width c * canvas_height c)%nat ->
    exists c',
      _getTintedImageCanvas img r = Normal (SCanvas c', r) /\
      tmp_width c' = canvas_width c /\
      tmp_height c' = canvas_height c /\
      id_width (tmp_put c') = canvas_width c /\
      id_height (tmp_put c') = canvas_height c /\
      List.length (id_data (tmp_put c')) = List.length (canvas_pixels c) /\
      forall k pr pg pb pa,
        pixel_at (canvas_pixels c) k = Some (pr, pg, pb, pa) ->
        exists qr qg qb qa,
          pixel_at (id_data (tmp_put c')) k = Some (qr, qg, qb, qa) /\
          scaled pr tr qr /\ scaled pg tg qg /\
          scaled pb tb qb /\ scaled pa ta qa.
Proof.
  intros img c r tr tg tb ta Hc Ht Htr Htg Htb Hta Hbytes Hw Hh Hlen.
  set (l := [Num.of_Z tr; Num.of_Z tg; Num.of_Z tb; Num.of_Z ta]) in *.
  destruct (tinted_bytes img r Hc Ht Hw Hh Hlen) as (out & Hrun & Hout & Hall).
  eexists. split; [exact Hrun|].
  cbn [tmp_width tmp_height tmp_put id_width id_height id_data].
  split; [reflexivity|]. split; [reflexivity|]. split; [reflexivity|].
  split; [reflexivity|]. split; [exact Hout|].
  intros k pr pg pb pa Hpx.
  destruct (@pixel_at_Some _ _ _ _ _ _ Hpx) as (H0 & H1 & H2 & H3).
  eexists _, _, _, _. split; [apply (Hall k pr pg pb pa Hpx)|].
  split; [|split; [|split]].
  - apply (@tinted_scaled l _ k 0 _ _ H0 eq_refl (byte_at _ Hbytes H0) Htr).
  - apply (@tinted_scaled l _ k 1 _ _ H1 eq_refl (byte_at _ Hbytes H1) Htg).
  - apply (@tinted_scaled l _ k 2 _ _ H2 eq_refl (byte_at _ Hbytes H2) Htb).
  - apply (@tinted_scaled l _ k 3 _ _ H3 eq_refl (byte_at _ Hbytes H3) Hta).
Qed.

(** Tint (0,153,204,255) on the opaque white pixel (255,255,255,255) yields
    exactly (0,153,204,255). *)
Lemma tint_scales_each_channel_witness :
  exists c',
    _getTintedImageCanvas Examples.white
        (set_tint (Some [0; 153; 204; 255]) Examples.renderer0)
      = Normal (SCanvas c', set_tint (Some [0; 153; 204; 255]) Examples.renderer0) /\
    pixel_at (id_data (tmp_put c')) 0 = Some (0, 153, 204, 255)%Z.
Proof.
  destruct (@tint_scales_each_channel Examples.white
              {| canvas_width := 1; canvas_height := 1;
                 canvas_pixels := [255; 255; 255; 255]%Z |}
              (set_tint (Some [0; 153; 204; 255]) Examples.renderer0)
              0 153 204 255 eq_refl eq_refl)
    as (c' & Hrun & _ & _ & _ & _ & _ & Hpx); try lia.
  - repeat constructor; lia.
  - cbn; lia.
  - cbn; lia.
  - reflexivity.
  - exists c'. split; [exact Hrun|].
    destruct (Hpx 0%nat 255 255 255 255 eq_refl)%Z
      as (qr & qg & qb & qa & -> & Hr & Hg & Hb & Ha).
    unfold scaled in *.
    assert (qr = 0 /\ qg = 153 /\ qb = 204 /\ qa = 255)%Z as (-> & -> & -> & ->)
      by lia.
    reflexivity.
Defined.

End ImageFacts.

(** ** Loading images *)

Module LoadFacts.

Import Js Image.
Open Scope float_scope.

Lemma nth_error_update_same {A} (l : list A) (i : nat) (v : A) :
  (i < List.length l)%nat -> nth_error (update l i v) i = Some v.
Proof.
  revert i; induction l as [|a l IH]; intros [|i] H; simpl in *; try lia.
  - reflexivity.
  - apply IH. lia.
Qed.

Lemma nth_error_update_other {A} (l : list A) (i j : nat) (v : A) :
  i <> j -> nth_error (update l i v) j = nth_error l j.
Proof.
  revert i j; induction l as [|a l IH]; intros [|i] [|j] H; simpl;
    try reflexivity; try congruence.
  apply IH. congruence.
Qed.

Lemma nth_error_snoc {A} (l : list A) (v : A) :
  nth_error (l ++ [v]) (List.length l) = Some v.
Proof. rewrite nth_error_app2, Nat.sub_diag by lia. reflexivity. Qed.

(** [onerror] reports and calls back, and touches no object. *)
Lemma onerror_keeps_heap (l : Loader) (e : string) (wd : World) :
  exists wd', onerror l e wd = Normal (tt, wd') /\ heap wd' = heap wd.
Proof.
  unfold onerror, onerror_calling, call, bind, effect, modify, ret.
  destruct (ld_failure l);
    [destruct (negb (fn_eqb (Some f) (ld_decrement l)))|];
    eexists; split; reflexivity.
Qed.

(** However many loads fail, of whichever loaders, no object changes. *)
Lemma errors_keep_heap (evs : list BrowserEvent) (wd : World) :
  Forall is_error evs ->
  exists wd', browse evs wd = Normal (tt, wd') /\ heap wd' = heap wd.
Proof.
  revert wd. induction evs as [|ev evs IH]; intros wd H.
  - exists wd. split; reflexivity.
  - inversion H as [|? ? Hev Hevs]; subst.
    destruct ev as [l img | l e]; [destruct Hev|].
    destruct (onerror_keeps_heap l e wd) as (wd1 & Hrun1 & Hheap1).
    destruct (IH wd1 Hevs) as (wd' & Hrun & Hheap).
    exists wd'. split; [|congruence].
    cbn [browse fire]. unfold bind. rewrite Hrun1. exact Hrun.
Qed.

(** [onload] on a loader whose [p5.Image] still has its canvas: the object
    takes the decoded size, every other object is left alone. *)
Lemma onload_resizes (l : Loader) (img : Decoded) (wd : World) (o : Img) :
  nth_error (heap wd) (ld_pImg l) = Some o ->
  canvas o <> None ->
  exists wd' o',
    onload l img wd = Normal (tt, wd') /\
    nth_error (heap wd') (ld_pImg l) = Some o' /\
    width o' = Num.of_Z (Z.of_nat (dec_width img)) /\
    height o' = Num.of_Z (Z.of_nat (dec_height img)) /\
    forall r, r <> ld_pImg l -> nth_error (heap wd') r = nth_error (heap wd) r.
Proof.
  intros Ho Hc.
  assert (Hlt : (ld_pImg l < List.length (heap wd))%nat)
    by (apply nth_error_Some; congruence).
  unfold onload, onload_calling, call, bind, deref. rewrite Ho.
  destruct (canvas o) as [cv|]; [|congruence].
  unfold assign, effect, modify, ret.
  destruct (ld_success l) as [f|];
    (destruct (ld_decrement l) as [g|];
     [destruct (negb (fn_eqb _ (Some g)))|]);
    (eexists _, _; split; [reflexivity|]; cbn [heap];
     split; [apply nth_error_update_same; exact Hlt|];
     split; [reflexivity|]; split; [reflexivity|];
     intros r Hr; apply nth_error_update_other; congruence).
Qed.

(** C10.  [loadImage] returns at once, before the browser has decoded
    anything: the reference it returns names a new [p5.Image] of width 1 and
    height 1, no callback has run and no older object has changed.  Of the
    two handlers it installed, [onerror] leaves the object as it is (1 x 1),
    as does any run of failed loads, and [onload] gives it the width and
    height of the decoded image. *)
Theorem loadImage_returns_1x1_until_loaded :
  forall (path : string) (successCallback failureCallback decrementPreload : option fn)
         (wd : World),
  exists (pImg : ref) (l : Loader) (wd1 : World) (o : Img),
    loadImage path successCallback failureCallback decrementPreload wd
      = Normal (pImg, wd1) /\
    nth_error (heap wd1) pImg = Some o /\
    width o = 1 /\ height o = 1 /\
    effects wd1 = effects wd /\
    (forall r, (r < List.length (heap wd))%nat ->
               nth_error (heap wd1) r = nth_error (heap wd) r) /\
    loading wd1 = l :: loading wd /\
    ld_pImg l = pImg /\
    (forall e, exists wd2,
       onerror l e wd1 = Normal (tt, wd2) /\
       nth_error (heap wd2) pImg = Some o) /\
    (forall evs, Forall is_error evs -> exists wd2,
       browse evs wd1 = Normal (tt, wd2) /\
       nth_error (heap wd2) pImg = Some o) /\
    (forall img, exists wd2 o',
       onload l img wd1 = Normal (tt, wd2) /\
       nth_error (heap wd2) pImg = Some o' /\
       width o' = Num.of_Z (Z.of_nat (dec_width img)) /\
       height o' = Num.of_Z (Z.of_nat (dec_height img))).
Proof.
  intros path sc fc dp wd.
  unfold loadImage, bind, alloc, start_loading, modify, ret.
  eexists _, _, _, _. split; [reflexivity|]. cbn [heap effects loading ld_pImg].
  split; [apply nth_error_snoc|].
  split; [reflexivity|]. split; [reflexivity|]. split; [reflexivity|].
  split; [intros r Hr; apply nth_error_app1; exact Hr|].
  split; [reflexivity|]. split; [reflexivity|]. split; [|split].
  - intros e.
    match goal with |- exists wd2, onerror ?l e ?w = _ /\ _ =>
      destruct (onerror_keeps_heap l e w) as (wd2 & Hrun & Hheap)
    end.
    exists wd2. split; [exact Hrun|]. rewrite Hheap. apply nth_error_snoc.
  - intros evs Hevs.
    match goal with |- exists wd2, browse evs ?w = _ /\ _ =>
      destruct (errors_keep_heap w Hevs) as (wd2 & Hrun & Hheap)
    end.
    exists wd2. split; [exact Hrun|]. rewrite Hheap. apply nth_error_snoc.
  - intros img.
    match goal with |- exists wd2 o', onload ?l img ?w = _ /\ _ =>
      destruct (@onload_resizes l img w (new_p5Image 1 1))
        as (wd2 & o' & Hrun & Ho' & Hw & Hh & _)
    end.
    + apply nth_error_snoc.
    + discriminate.
    + exists wd2, o'. repeat split; assumption.
Qed.

(** [loadImage("assets/laDefense.jpg", f)] outside preload: the image is
    1 x 1 on return; a failed load leaves it so; once the 640 x 480 picture
    is decoded, [onload] makes it 640 x 480. *)
Lemma loadImage_returns_1x1_until_loaded_witness :
  exists pImg l wd1 o wd2 wd3 o',
    loadImage "assets/laDefense.jpg" (Some 7%nat) None None Examples.world0
      = Normal (pImg, wd1) /\
    nth_error (heap wd1) pImg = Some o /\
    width o = 1 /\ height o = 1 /\
    browse [Error l "error"] wd1 = Normal (tt, wd2) /\
    nth_error (heap wd2) pImg = Some o /\
    onload l {| dec_width := 640; dec_height := 480; dec_pixels := [] |} wd1
      = Normal (tt, wd3) /\
    nth_error (heap wd3) pImg = Some o' /\
    width o' = 640 /\ height o' = 480.
Proof.
  destruct (loadImage_returns_1x1_until_loaded
              "assets/laDefense.jpg" (Some 7%nat) None None Examples.world0)
    as (pImg & l & wd1 & o & Hrun & Ho & Hw & Hh & _ & _ & _ & _ & _ & Herr & Hload).
  destruct (Herr [Error l "error"]) as (wd2 & Hrun2 & Ho2).
  { repeat constructor. }
  destruct (Hload {| dec_width := 640; dec_height := 480; dec_pixels := [] |})
    as (wd3 & o' & Hrun3 & Ho3 & Hw3 & Hh3).
  exists pImg, l, wd1, o, wd2, wd3, o'.
  repeat split; assumption.
Defined.

End LoadFacts.

(** ** Camera commands *)

Module CameraFacts.

Import Js Camera.
Open Scope float_scope.

Section WithMatrix.

Variable Matrix : Type.
Variable identity : Matrix.
Variable mat_perspective : Matrix -> float -> float -> float -> float -> Matrix.
Variable mat_ortho :
  Matrix -> float -> float -> float -> float -> float -> float -> Matrix.
Variable mat_translate : Matrix -> float -> float -> float -> Matrix.

Local Abbreviation p5 := (p5 Matrix).
Local Abbreviation camera := (camera mat_translate).
Local Abbreviation perspective := (perspective identity mat_perspective).
Local Abbreviation ortho := (ortho identity mat_ortho).
Local Abbreviation exec := (exec identity mat_perspective mat_ortho mat_translate).
Local Abbreviation run := (run identity mat_perspective mat_ortho mat_translate).

Lemma camera_runs (x y z : float) (this : p5) :
  camera x y z this =
  Normal (tt, with_renderer this
    {| uMVMatrix := mat_translate (uMVMatrix (_renderer this)) (- x) (- y) (- z);
       uPMatrix := uPMatrix (_renderer this);
       _curCamera := _curCamera (_renderer this) |}).
Proof. reflexivity. Qed.

Lemma perspective_runs (fovy aspect near far : option float) (this : p5) :
  perspective fovy aspect near far this =
  Normal (tt, with_renderer this
    {| uMVMatrix := uMVMatrix (_renderer this);
       uPMatrix := mat_perspective identity
                     (fovy_used this fovy) (aspect_used this aspect)
                     (near_used this fovy near) (far_used this fovy far);
       _curCamera := custom |}).
Proof. reflexivity. Qed.

Lemma ortho_runs (left right bottom top near far : option float) (this : p5) :
  ortho left right bottom top near far this =
  Normal (tt, with_renderer this
    {| uMVMatrix := uMVMatrix (_renderer this);
       uPMatrix := mat_ortho identity
                     (Num.or_default left (- width this / 2))
                     (Num.or_default right (width this / 2))
                     (Num.or_default bottom (- height this / 2))
                     (Num.or_default top (height this / 2))
                     (Num.or_default near 0)
                     (Num.or_default far (Math_max (width this) (height this)));
       _curCamera := custom |}).
Proof. reflexivity. Qed.

(** C3, as the code has it.  [perspective] and [ortho] check nothing: for
    every choice of parameters, valid or not, they return normally, having
    replaced the projection matrix by the one the matrix builder makes from
    the identity at the passed (or defaulted) parameters, and the projection
    kind is Custom. *)
Theorem projection_parameters_unchecked :
  forall (this : p5),
    (forall fovy aspect near far, exists this',
       perspective fovy aspect near far this = Normal (tt, this') /\
       uPMatrix (_renderer this') =
         mat_perspective identity (fovy_used this fovy) (aspect_used this aspect)
           (near_used this fovy near) (far_used this fovy far) /\
       _curCamera (_renderer this') = custom) /\
    (forall left right bottom top near far, exists this',
       ortho left right bottom top near far this = Normal (tt, this') /\
       uPMatrix (_renderer this') =
         mat_ortho identity
           (Num.or_default left (- width this / 2))
           (Num.or_default right (width this / 2))
           (Num.or_default bottom (- height this / 2))
           (Num.or_default top (height this / 2))
           (Num.or_default near 0)
           (Num.or_default far (Math_max (width this) (height this))) /\
       _curCamera (_renderer this') = custom).
Proof.
  intros this. split; intros.
  - rewrite perspective_runs. eexists. repeat split.
  - rewrite ortho_runs. eexists. repeat split.
Qed.

(** Two camera commands in a row: both translations end up composed into
    the view matrix, in order; nothing else changes. *)
Lemma camera_twice_runs (this : p5) (x1 y1 z1 x2 y2 z2 : float) :
  exists this',
    run [Camera x1 y1 z1; Camera x2 y2 z2] this = Normal (tt, this') /\
    uMVMatrix (_renderer this') =
      mat_translate
        (mat_translate (uMVMatrix (_renderer this)) (- x1) (- y1) (- z1))
        (- x2) (- y2) (- z2) /\
    uPMatrix (_renderer this') = uPMatrix (_renderer this) /\
    _curCamera (_renderer this') = _curCamera (_renderer this).
Proof.
  cbn [Camera.run Camera.exec]. unfold bind.
  rewrite !camera_runs. eexists. repeat split.
Qed.

(** C5.  With every parameter omitted, [perspective] builds its matrix at
    fovy = 60/180 * PI, aspect = width/height, near = (height/2) /
    tan(fovy/2) * 0.1 and far = (height/2) / tan(fovy/2) * 10, and [ortho]
    at left = -width/2, right = width/2, bottom = -height/2, top = height/2,
    near = 0 and far = max(width, height); width, height, PI and tan are
    those of the sketch. *)
Theorem omitted_parameters_default :
  forall (this : p5),
    let fovy := 60 / 180 * PI this in
    perspective None None None None this =
      Normal (tt, with_renderer this
        {| uMVMatrix := uMVMatrix (_renderer this);
           uPMatrix := mat_perspective identity
                         fovy
                         (width this / height this)
                         (height this / 2 / tan this (fovy / 2) * 0x1.999999999999ap-4)
                         (height this / 2 / tan this (fovy / 2) * 10);
           _curCamera := custom |}) /\
    ortho None None None None None None this =
      Normal (tt, with_renderer this
        {| uMVMatrix := uMVMatrix (_renderer this);
           uPMatrix := mat_ortho identity
                         (- width this / 2) (width this / 2)
                         (- height this / 2) (height this / 2)
                         0
                         (Math_max (width this) (height this));
           _curCamera := custom |}).
Proof.
  intros this fovy. split; reflexivity.
Qed.

(** C6.  A falsy number ([0], [-0] or [NaN]) passed to [perspective] for
    [fovy], [aspect], [near] or [far] is replaced by the computed default:
    the matrix builder receives 60/180*PI, width/height, (height/2) /
    tan(fovy/2) * 0.1 or (height/2) / tan(fovy/2) * 10 in its place, and the
    call does exactly what it does with that argument omitted. *)
Theorem explicit_zero_is_defaulted :
  forall (this : p5) (v : float) (fovy aspect near far : option float),
    Num.truthy v = false ->
    (perspective (Some v) aspect near far this
       = perspective None aspect near far this /\
     exists this',
       perspective (Some v) aspect near far this = Normal (tt, this') /\
       uPMatrix (_renderer this') =
         mat_perspective identity
           (60 / 180 * PI this)
           (aspect_used this aspect)
           (near_used this None near) (far_used this None far) /\
       _curCamera (_renderer this') = custom) /\
    (perspective fovy (Some v) near far this
       = perspective fovy None near far this /\
     exists this',
       perspective fovy (Some v) near far this = Normal (tt, this') /\
       uPMatrix (_renderer this') =
         mat_perspective identity
           (fovy_used this fovy)
           (width this / height this)
           (near_used this fovy near) (far_used this fovy far) /\
       _curCamera (_renderer this') = custom) /\
    (perspective fovy aspect (Some v) far this
       = perspective fovy aspect None far this /\
     exists this',
       perspective fovy aspect (Some v) far this = Normal (tt, this') /\
       uPMatrix (_renderer this') =
         mat_perspective identity
           (fovy_used this fovy)
           (aspect_used this aspect)
           (height this / 2 / tan this (fovy_used this fovy / 2)
            * 0x1.999999999999ap-4)
           (far_used this fovy far) /\
       _curCamera (_renderer this') = custom) /\
    (perspective fovy aspect near (Some v) this
       = perspective fovy aspect near None this /\
     exists this',
       perspective fovy aspect near (Some v) this = Normal (tt, this') /\
       uPMatrix (_renderer this') =
         mat_perspective identity
           (fovy_used this fovy)
           (aspect_used this aspect)
           (near_used this fovy near)
           (height this / 2 / tan this (fovy_used this fovy / 2) * 10) /\
       _curCamera (_renderer this') = custom).
Proof.
  intros this v fovy aspect near far Hv.
  rewrite !perspective_runs.
  unfold fovy_used, aspect_used, near_used, far_used, fovy_used.
  rewrite !(fun d => @NumFacts.or_default_falsy v d Hv). cbn [Num.or_default].
  repeat split; eexists; repeat split.
Qed.

Lemma exec_keeps_custom (c : command) (this : p5) :
  _curCamera (_renderer this) = custom ->
  exists this', exec c this = Normal (tt, this') /\
                _curCamera (_renderer this') = custom.
Proof.
  intros H. destruct c; cbn [Camera.exec].
  - rewrite camera_runs. eexists. split; [reflexivity | exact H].
  - rewrite perspective_runs. eexists. split; reflexivity.
  - rewrite ortho_runs. eexists. split; reflexivity.
Qed.

(** C9.  After [perspective] or [ortho], with any parameters, the
    projection kind is Custom; and from a state whose kind is Custom, every
    sequence of camera, perspective and ortho commands runs to a state whose
    kind is Custom. *)
Theorem custom_projection_kind_is_kept :
  (forall (this : p5) fovy aspect near far, exists this',
     perspective fovy aspect near far this = Normal (tt, this') /\
     _curCamera (_renderer this') = custom) /\
  (forall (this : p5) left right bottom top near far, exists this',
     ortho left right bottom top near far this = Normal (tt, this') /\
     _curCamera (_renderer this') = custom) /\
  (forall (cs : list command) (this : p5),
     _curCamera (_renderer this) = custom ->
     exists this', run cs this = Normal (tt, this') /\
                   _curCamera (_renderer this') = custom).
Proof.
  split; [|split].
  - intros. rewrite perspective_runs. eexists. split; reflexivity.
  - intros. rewrite ortho_runs. eexists. split; reflexivity.
  - induction cs as [|c cs IH]; intros this H.
    + exists this. split; [reflexivity | exact H].
    + destruct (exec_keeps_custom c this H) as (this1 & Hc & H1).
      destruct (IH this1 H1) as (this' & Hcs & H').
      exists this'. split; [|exact H'].
      cbn [Camera.run]. unfold bind. rewrite Hc. exact Hcs.
Qed.

End WithMatrix.

End CameraFacts.

(** ** The camera commands on the example sketch *)

Module CameraExamples.

Import Js Camera.
Open Scope float_scope.

(** C3, as the spec states it, fails.  A negative aspect ratio, and clip
    distances with far below near, are invalid projection parameters; both
    calls return normally with the projection matrix rebuilt from them and
    the projection kind set to Custom. *)
Lemma invalid_projection_not_rejected :
  invalid_perspective 1 (-1) 1 100 = true /\
  (exists this',
     Examples.perspective (Some 1) (Some (-1)) (Some 1) (Some 100) Examples.sketch
       = Normal (tt, this') /\
     uPMatrix (_renderer this')
       = Mat4.perspective Examples.Math_tan Mat4.identity 1 (-1) 1 100 /\
     uPMatrix (_renderer this') <> uPMatrix (_renderer Examples.sketch) /\
     _curCamera (_renderer this') = custom) /\
  ~ throws (Examples.perspective (Some 1) (Some (-1)) (Some 1) (Some 100))
      Examples.sketch /\
  invalid_ortho 100 50 = true /\
  (exists this',
     Examples.ortho (Some (-50)) (Some 50) (Some (-50)) (Some 50)
         (Some 100) (Some 50) Examples.sketch
       = Normal (tt, this') /\
     uPMatrix (_renderer this')
       = Mat4.ortho Mat4.identity (-50) 50 (-50) 50 100 50 /\
     uPMatrix (_renderer this') <> uPMatrix (_renderer Examples.sketch) /\
     _curCamera (_renderer this') = custom) /\
  ~ throws (Examples.ortho (Some (-50)) (Some 50) (Some (-50)) (Some 50)
              (Some 100) (Some 50)) Examples.sketch.
Proof.
  split; [reflexivity|]. split; [|split; [|split; [reflexivity|split]]].
  - unfold Examples.perspective. rewrite CameraFacts.perspective_runs.
    eexists. split; [reflexivity|]. split; [reflexivity|].
    split; [|reflexivity]. vm_compute. discriminate.
  - apply JsFacts.returns_not_throws. unfold returns, Examples.perspective.
    rewrite CameraFacts.perspective_runs. eexists _, _. reflexivity.
  - unfold Examples.ortho. rewrite CameraFacts.ortho_runs.
    eexists. split; [reflexivity|]. split; [reflexivity|].
    split; [|reflexivity]. vm_compute. discriminate.
  - apply JsFacts.returns_not_throws. unfold returns, Examples.ortho.
    rewrite CameraFacts.ortho_runs. eexists _, _. reflexivity.
Qed.

(** The example sketch after [camera(0, 0, 100)] then [camera(0, 0, 0)],
    and after [camera(0, 0, 0)] alone. *)
Lemma camera_twice_on_sketch :
  exists this2 this1,
    Examples.run [Camera 0 0 100; Camera 0 0 0] Examples.sketch
      = Normal (tt, this2) /\
    Examples.run [Camera 0 0 0] Examples.sketch = Normal (tt, this1) /\
    Mat4.translation (uMVMatrix (_renderer this2)) = (0, 0, -100) /\
    Mat4.translation (uMVMatrix (_renderer this1)) = (0, 0, 0) /\
    Mat4.translation (uMVMatrix (_renderer Examples.sketch)) = (0, 0, 0).
Proof.
  unfold Examples.run. cbn [Camera.run Camera.exec]. unfold bind.
  rewrite !CameraFacts.camera_runs.
  eexists _, _. split; [reflexivity|]. split; [reflexivity|].
  split; [|split]; vm_compute; reflexivity.
Qed.

(** C4, as the spec states it, fails.  After [camera(0, 0, 100)] and then
    [camera(0, 0, 0)] the translation of the view matrix is (0, 0, -100),
    not the (0, 0, 0) that [camera(0, 0, 0)] alone leaves, from the same
    original view matrix: the second command did not replace the first. *)
Lemma camera_second_does_not_replace_first :
  exists this2 this1,
    Examples.run [Camera 0 0 100; Camera 0 0 0] Examples.sketch
      = Normal (tt, this2) /\
    Examples.run [Camera 0 0 0] Examples.sketch = Normal (tt, this1) /\
    Mat4.translation (uMVMatrix (_renderer this2)) = (0, 0, -100) /\
    Mat4.translation (uMVMatrix (_renderer this1)) = (0, 0, 0) /\
    uMVMatrix (_renderer this2) <> uMVMatrix (_renderer this1).
Proof.
  destruct camera_twice_on_sketch as (this2 & this1 & H2 & H1 & T2 & T1 & _).
  exists this2, this1. repeat split; try assumption.
  intros E. rewrite E, T1 in T2. discriminate.
Qed.

(** C4, as the code has it.  Camera commands compose: for every matrix
    implementation, after [camera] at (x1, y1, z1) and then at (x2, y2, z2)
    the view matrix is the one before the two calls with both translations
    composed into it, the first by (-x1, -y1, -z1), then the second by
    (-x2, -y2, -z2), and the projection matrix and kind are untouched; on
    the example sketch, [camera(0, 0, 100)] then [camera(0, 0, 0)] leaves
    the translation at (0, 0, -100). *)
Theorem camera_commands_are_cumulative :
  (forall (Matrix : Type) (identity : Matrix)
          (mat_perspective : Matrix -> float -> float -> float -> float -> Matrix)
          (mat_ortho : Matrix -> float -> float -> float -> float -> float
                       -> float -> Matrix)
          (mat_translate : Matrix -> float -> float -> float -> Matrix)
          (this : p5 Matrix) (x1 y1 z1 x2 y2 z2 : float),
   exists this',
     Camera.run identity mat_perspective mat_ortho mat_translate
       [Camera x1 y1 z1; Camera x2 y2 z2] this = Normal (tt, this') /\
     uMVMatrix (_renderer this') =
       mat_translate
         (mat_translate (uMVMatrix (_renderer this)) (- x1) (- y1) (- z1))
         (- x2) (- y2) (- z2) /\
     uPMatrix (_renderer this') = uPMatrix (_renderer this) /\
     _curCamera (_renderer this') = _curCamera (_renderer this)) /\
  (exists this2,
     Examples.run [Camera 0 0 100; Camera 0 0 0] Examples.sketch
       = Normal (tt, this2) /\
     Mat4.translation (uMVMatrix (_renderer this2)) = (0, 0, -100)).
Proof.
  split.
  - intros. apply CameraFacts.camera_twice_runs.
  - destruct camera_twice_on_sketch as (this2 & _ & H2 & _ & T2 & _).
    exists this2. split; assumption.
Qed.

(** [perspective(PI/3, 1, 0, 1000)] on the 100 x 100 sketch: the builder
    receives the default near plane, 50 / tan(PI/6) * 0.1 (between 8.5 and
    8.75), not 0, as with [perspective(PI/3, 1, undefined, 1000)]. *)
Lemma explicit_zero_is_defaulted_witness :
  Num.truthy 0 = false /\
  Examples.perspective (Some (Num.Math_PI / 3)) (Some 1) (Some 0) (Some 1000)
      Examples.sketch
    = Examples.perspective (Some (Num.Math_PI / 3)) (Some 1) None (Some 1000)
        Examples.sketch /\
  exists this' near,
    Examples.perspective (Some (Num.Math_PI / 3)) (Some 1) (Some 0) (Some 1000)
        Examples.sketch = Normal (tt, this') /\
    uPMatrix (_renderer this')
      = Mat4.perspective Examples.Math_tan Mat4.identity
          (Num.Math_PI / 3) 1 near 1000 /\
    near = 100 / 2 / Examples.Math_tan (Num.Math_PI / 3 / 2) * 0x1.999999999999ap-4 /\
    (0x1.1p3 <? near) = true /\ (near <? 0x1.18p3) = true.
Proof.
  split; [reflexivity|].
  destruct (CameraFacts.explicit_zero_is_defaulted
              Mat4.identity (Mat4.perspective Examples.Math_tan)
              Examples.sketch 0 (Some (Num.Math_PI / 3)) (Some 1) None
              (Some 1000) eq_refl)
    as (_ & _ & (Heq & this' & Hrun & Hm & _) & _).
  split; [exact Heq|].
  exists this', (100 / 2 / Examples.Math_tan (Num.Math_PI / 3 / 2)
                 * 0x1.999999999999ap-4).
  split; [exact Hrun|]. split; [rewrite Hm; reflexivity|].
  split; [reflexivity|]. split; vm_compute; reflexivity.
Defined.

(** From the sketch after [ortho()], a camera move, a new perspective and
    another camera move keep the projection kind Custom. *)
Lemma custom_projection_kind_is_kept_witness :
  exists this1 this',
    Examples.ortho None None None None None None Examples.sketch
      = Normal (tt, this1) /\
    _curCamera (_renderer this1) = custom /\
    Examples.run [Camera 0 0 100; Perspective None None None None; Camera 1 2 3]
        this1 = Normal (tt, this') /\
    _curCamera (_renderer this') = custom.
Proof.
  destruct (proj1 (proj2 (CameraFacts.custom_projection_kind_is_kept
                      Mat4.identity (Mat4.perspective Examples.Math_tan)
                      Mat4.ortho Mat4.translate))
              Examples.sketch None None None None None None)
    as (this1 & Hrun1 & Hc1).
  destruct (proj2 (proj2 (CameraFacts.custom_projection_kind_is_kept
                      Mat4.identity (Mat4.perspective Examples.Math_tan)
                      Mat4.ortho Mat4.translate))
              [Camera 0 0 100; Perspective None None None None; Camera 1 2 3]
              this1 Hc1)
    as (this' & Hrun & Hc).
  exists this1, this'. repeat split; assumption.
Defined.

End CameraExamples.

(** ** More on the order of numbers *)

Module NumMore.

Open Scope float_scope.

Lemma ltb_leb (x y : float) : (x <? y) = true -> (x <=? y) = true.
Proof.
  rewrite FloatAxioms.leb_spec, FloatAxioms.ltb_spec. unfold SFleb, SFltb.
  destruct (SFcompare (Prim2SF x) (Prim2SF y)) as [[]|]; congruence.
Qed.

Lemma not_nan_spec (x : float) : is_nan x = false -> Prim2SF x <> S754_nan.
Proof.
  unfold is_nan. rewrite FloatAxioms.eqb_spec. unfold SFeqb.
  intros H E. rewrite E in H. discriminate.
Qed.

Lemma leb_refl (x : float) : is_nan x = false -> (x <=? x) = true.
Proof.
  intros H. apply not_nan_spec in H.
  rewrite FloatAxioms.leb_spec. unfold SFleb. rewrite NumFacts.SFcompare_refl.
  destruct (Prim2SF x); congruence.
Qed.

Lemma SFcompare_total (a b : spec_float) :
  a <> S754_nan -> b <> S754_nan -> SFcompare a b <> None.
Proof.
  destruct a, b; simpl; congruence.
Qed.

(** Two numbers that are not [NaN] are comparable. *)
Lemma not_ltb_leb (x y : float) :
  is_nan x = false -> is_nan y = false -> (y <? x) = false -> (x <=? y) = true.
Proof.
  intros Hx Hy. apply not_nan_spec in Hx. apply not_nan_spec in Hy.
  rewrite FloatAxioms.leb_spec, FloatAxioms.ltb_spec. unfold SFleb, SFltb.
  rewrite (NumFacts.SFcompare_antisym (Prim2SF x) (Prim2SF y)).
  pose proof (SFcompare_total Hx Hy) as Ht.
  destruct (SFcompare (Prim2SF x) (Prim2SF y)) as [[]|]; simpl; congruence.
Qed.

End NumMore.

(** ** More on displaying images *)

Module ImageMore.

Import Js Image Observe.
Open Scope float_scope.

(** *** The source sub-rectangle stays inside the image *)

Lemma resolve_in_range (s : option float) (def : float) :
  (0 <? def) = true ->
  (0 <? _sAssign (Num.or_default s def) def) = true /\
  (_sAssign (Num.or_default s def) def <=? def) = true.
Proof.
  intros Hd. unfold _sAssign.
  destruct ((0 <? Num.or_default s def) && (Num.or_default s def <? def)) eqn:E.
  - apply andb_prop in E. destruct E as [E0 E1]. split; [exact E0|].
    apply NumMore.ltb_leb. exact E1.
  - split; [exact Hd|]. apply NumMore.leb_refl.
    apply (NumFacts.ltb_not_nan_r Hd).
Qed.

(** X1.  Whatever source size a sketch asks for (omitted, zero, negative,
    too large, infinite or [NaN]), when the natural size of the image is
    positive the size [image] resolves before the pixel-density correction
    is positive and at most the natural size, in each dimension. *)
Theorem image_source_size_in_range :
  forall modeAdjust img dx dy dWidth dHeight sx sy (sWidth sHeight : option float) r,
    (0 <? defW img) = true -> (0 <? defH img) = true ->
    exists rw rh c,
      image modeAdjust img dx dy dWidth dHeight sx sy sWidth sHeight r
        = Normal (tt, renderer_image c r) /\
      d_sw c = rw * pd img /\ d_sh c = rh * pd img /\
      (0 <? rw) = true /\ (rw <=? defW img) = true /\
      (0 <? rh) = true /\ (rh <=? defH img) = true.
Proof.
  intros until r. intros HW HH. rewrite ImageFacts.image_draws.
  eexists _, _, _. split; [reflexivity|]. cbn [d_sw d_sh].
  split; [reflexivity|]. split; [reflexivity|].
  destruct (resolve_in_range sWidth HW) as [? ?].
  destruct (resolve_in_range sHeight HH) as [? ?].
  repeat split; assumption.
Qed.

(** A 200 x 2 bitmap asked for a [NaN] by infinity source rectangle: the
    whole bitmap is used. *)
Lemma image_source_size_in_range_witness :
  exists c,
    image modeAdjust Examples.bitmap200 0 0 None None None None
        (Some nan) (Some infinity) Examples.renderer0
      = Normal (tt, renderer_image c Examples.renderer0) /\
    d_sw c = 200 /\ d_sh c = 2.
Proof.
  destruct (@image_source_size_in_range modeAdjust Examples.bitmap200 0 0
              None None None None (Some nan) (Some infinity) Examples.renderer0
              eq_refl eq_refl)
    as (rw & rh & c & Hc & Hw & Hh & _).
  exists c. split; [exact Hc|].
  rewrite ImageFacts.image_draws in Hc. injection Hc as Hc. subst c.
  split; reflexivity.
Defined.

(** *** The placement mode stays a known one *)

Lemma imageMode_keeps_recognized (m : value) (r : Renderer) :
  recognized (_imageMode r) ->
  exists r', imageMode m r = Normal (tt, r') /\
             recognized (_imageMode r') /\
             _tint r' = _tint r /\ _drawn r' = _drawn r.
Proof.
  intros H. unfold imageMode.
  destruct (strict_eq m constants.CORNER) eqn:E1.
  { apply JsFacts.strict_eq_str in E1. subst m. eexists. split; [reflexivity|].
    repeat split. left; reflexivity. }
  destruct (strict_eq m constants.CORNERS) eqn:E2.
  { apply JsFacts.strict_eq_str in E2. subst m. eexists. split; [reflexivity|].
    repeat split. right; left; reflexivity. }
  destruct (strict_eq m constants.CENTER) eqn:E3.
  { apply JsFacts.strict_eq_str in E3. subst m. eexists. split; [reflexivity|].
    repeat split. right; right; reflexivity. }
  exists r. repeat split. exact H.
Qed.

(** X2.  From a renderer whose placement mode is one of CORNER, CORNERS and
    CENTER, any sequence of [imageMode] calls, with any arguments, returns
    normally and leaves the mode one of the three; the tint and the calls
    already drawn are untouched. *)
Theorem imageMode_invariant :
  forall (ms : list value) (r : Renderer),
    recognized (_imageMode r) ->
    exists r', imageModes ms r = Normal (tt, r') /\
               recognized (_imageMode r') /\
               _tint r' = _tint r /\ _drawn r' = _drawn r.
Proof.
  induction ms as [|m ms IH]; intros r H.
  - exists r. repeat split. exact H.
  - destruct (imageMode_keeps_recognized m r H) as (r1 & Hrun1 & H1 & Ht1 & Hd1).
    destruct (IH r1 H1) as (r' & Hrun & H' & Ht & Hd).
    exists r'. split; [|split; [exact H'|split; congruence]].
    cbn [imageModes]. unfold bind. rewrite Hrun1. exact Hrun.
Qed.

Lemma imageMode_invariant_witness :
  exists r',
    imageModes [VStr "middle"; constants.CENTER; VNum 3; VUndefined;
                constants.CORNERS; VStr "Corner"] Examples.renderer0
      = Normal (tt, r') /\
    _imageMode r' = constants.CORNERS.
Proof.
  destruct (@imageMode_invariant
              [VStr "middle"; constants.CENTER; VNum 3; VUndefined;
               constants.CORNERS; VStr "Corner"] Examples.renderer0
              (or_introl eq_refl))
    as (r' & Hrun & _).
  exists r'. split; [exact Hrun|].
  vm_compute in Hrun. injection Hrun as <-. reflexivity.
Defined.

End ImageMore.

(** ** More on tinting *)

Module TintMore.

Import Js Image Observe.
Open Scope float_scope.
Open Scope js_scope.

Lemma tint_pixel_runs (l : list float) (pixels newPixels : list Z) (i : nat) :
  exists np, tint_pixel i pixels (Some l) newPixels = Normal np /\
             List.length np = List.length newPixels.
Proof.
  unfold tint_pixel, tint_at. eexists. split; [reflexivity|].
  rewrite !ImageFacts.store_length. reflexivity.
Qed.

(** With a tint set the loop cannot throw, and it keeps the size of the new
    buffer: from any index, with any fuel, whatever the levels. *)
Lemma tint_loop_runs (l : list float) (pixels : list Z) :
  forall fuel i newPixels,
    exists out, tint_loop fuel i pixels (Some l) newPixels = Normal out /\
                List.length out = List.length newPixels.
Proof.
  induction fuel as [|fuel IH]; intros i newPixels.
  - exists newPixels. split; reflexivity.
  - rewrite ImageFacts.tint_loop_S. destruct (i <? List.length pixels)%nat.
    + destruct (tint_pixel_runs l pixels newPixels i) as (np & -> & Hnp).
      destruct (IH (i + 4)%nat np) as (out & -> & Hout).
      exists out. split; [reflexivity | congruence].
    + exists newPixels. split; reflexivity.
Qed.

(** X3.  After [tint(...)], whatever levels the colour resolves to (a short
    array, levels that are not numbers in 0..255), [_getTintedImageCanvas]
    on an image whose canvas has a positive width and height returns
    normally: a canvas of the same width and height, into which an image
    data of that size, with exactly 4 * width * height bytes, was put; the
    renderer keeps the tint just set. *)
Theorem tinted_canvas_has_the_size_of_the_source :
  forall (color_levels : list value -> list float) (arguments : list value)
         (img : Img) (c : Canvas) (r : Renderer),
    canvas img = Some c ->
    (0 < canvas_width c)%nat -> (0 < canvas_height c)%nat ->
    List.length (canvas_pixels c) = (4 * canvas_width c * canvas_height c)%nat ->
    exists c',
      (tint color_levels arguments ;;; _getTintedImageCanvas img) r
        = Normal (SCanvas c', set_tint (Some (color_levels arguments)) r) /\
      tmp_width c' = canvas_width c /\
      tmp_height c' = canvas_height c /\
      id_width (tmp_put c') = canvas_width c /\
      id_height (tmp_put c') = canvas_height c /\
      List.length (id_data (tmp_put c'))
        = (4 * canvas_width c * canvas_height c)%nat.
Proof.
  intros color_levels arguments img c r Hc Hw Hh Hlen.
  destruct (tint_loop_runs (color_levels arguments) (canvas_pixels c)
              (List.length (canvas_pixels c)) 0
              (repeat 0%Z (4 * canvas_width c * canvas_height c)))
    as (out & Hrun & Hout).
  rewrite repeat_length in Hout.
  exists {| tmp_width := canvas_width c; tmp_height := canvas_height c;
            tmp_put := {| id_width := canvas_width c;
                          id_height := canvas_height c; id_data := out |} |}.
  split; [|repeat split; exact Hout].
  unfold bind, tint, modify, _getTintedImageCanvas. rewrite Hc.
  unfold bind, get, lift, _toPixels, createImageData.
  rewrite (ImageFacts.positive_size Hw Hh).
  cbn [_tint set_tint id_data id_width id_height]. rewrite Hrun. reflexivity.
Qed.

(** One white pixel under a tint whose levels array holds a [NaN] and lacks
    its alpha: the bytes stored for those two channels are 0. *)
Lemma tinted_canvas_has_the_size_of_the_source_witness :
  exists c',
    (tint (fun _ => [0; nan; 204]) [VNum 0; VStr "x"; VNum 204] ;;;
     _getTintedImageCanvas Examples.white) Examples.renderer0
      = Normal (SCanvas c', set_tint (Some [0; nan; 204]) Examples.renderer0) /\
    id_data (tmp_put c') = [0; 0; 204; 0]%Z.
Proof.
  destruct (@tinted_canvas_has_the_size_of_the_source
              (fun _ => [0; nan; 204]) [VNum 0; VStr "x"; VNum 204]
              Examples.white
              {| canvas_width := 1; canvas_height := 1;
                 canvas_pixels := [255; 255; 255; 255]%Z |}
              Examples.renderer0 eq_refl)
    as (c' & Hrun & _).
  - cbn [canvas_width]. lia.
  - cbn [canvas_height]. lia.
  - reflexivity.
  - exists c'. split; [exact Hrun|].
    vm_compute in Hrun. injection Hrun as <-. reflexivity.
Defined.

(** X4.  [_getTintedImageCanvas] on an image with a canvas throws in two
    cases.  On a canvas of zero width or zero height, reading its pixels
    throws an IndexSizeError, whatever the tint.  On a canvas of positive
    size, with no tint set (initially, or after [noTint()]), the first pass
    of the loop throws a TypeError, reading a level of the missing tint. *)
Theorem untinted_canvas_throws :
  forall (img : Img) (c : Canvas) (r : Renderer),
    canvas img = Some c ->
    (canvas_width c = 0%nat \/ canvas_height c = 0%nat ->
     exists msg, _getTintedImageCanvas img r = Throw (IndexSizeError msg)) /\
    ((0 < canvas_width c)%nat -> (0 < canvas_height c)%nat ->
     List.length (canvas_pixels c) = (4 * canvas_width c * canvas_height c)%nat ->
     exists msg,
       (noTint ;;; _getTintedImageCanvas img) r = Throw (TypeError msg)).
Proof.
  intros img c r Hc. split.
  - intros Hz. unfold _getTintedImageCanvas. rewrite Hc.
    unfold bind, get, lift, _toPixels.
    replace ((canvas_width c =? 0)%nat || (canvas_height c =? 0)%nat) with true.
    + eexists. reflexivity.
    + symmetry. apply orb_true_iff.
      destruct Hz as [Hz | Hz]; [left | right]; apply Nat.eqb_eq; exact Hz.
  - intros Hw Hh Hlen.
    unfold bind, noTint, modify, _getTintedImageCanvas. rewrite Hc.
    unfold bind, get, lift, _toPixels, createImageData.
    rewrite (ImageFacts.positive_size Hw Hh). cbn [_tint set_tint id_data].
    destruct (canvas_pixels c) as [|b px]; [cbn [List.length] in Hlen; nia|].
    cbn [List.length]. rewrite ImageFacts.tint_loop_S. cbn [List.length].
    replace (0 <? S (List.length px))%nat with true
      by (symmetry; apply Nat.ltb_lt; lia).
    unfold tint_pixel, tint_at. eexists. reflexivity.
Qed.

(** An image created 0 x 0, tinted blue; and the white pixel after
    [noTint()]. *)
Lemma untinted_canvas_throws_witness :
  (exists msg,
     _getTintedImageCanvas
       {| width := 0; height := 0; elt := None;
          canvas := Some {| canvas_width := 0; canvas_height := 0;
                            canvas_pixels := [] |} |}
       (set_tint (Some [0; 153; 204; 255]) Examples.renderer0)
     = Throw (IndexSizeError msg)) /\
  (exists msg,
     (noTint ;;; _getTintedImageCanvas Examples.white) Examples.renderer0
     = Throw (TypeError msg)).
Proof.
  split.
  - apply (@untinted_canvas_throws
             {| width := 0; height := 0; elt := None;
                canvas := Some {| canvas_width := 0; canvas_height := 0;
                                  canvas_pixels := [] |} |}
             _ (set_tint (Some [0; 153; 204; 255]) Examples.renderer0) eq_refl).
    left. reflexivity.
  - apply (@untinted_canvas_throws Examples.white _ Examples.renderer0 eq_refl).
    + cbn; lia.
    + cbn; lia.
    + reflexivity.
Defined.

(** A white tint level leaves the byte as it is. *)
Lemma scaled_white (v o : Z) : (0 <= v <= 255)%Z -> scaled v 255 o -> o = v.
Proof. unfold scaled. lia. Qed.

(** A tint level never raises a byte. *)
Lemma scaled_le (v t o : Z) :
  (0 <= v <= 255)%Z -> (0 <= t <= 255)%Z -> scaled v t o -> (o <= v)%Z.
Proof. unfold scaled. nia. Qed.

(** X5.  Under a white tint with an alpha level, [tint(255, a)], on a canvas
    of positive size, the image data that [_getTintedImageCanvas] computes
    and puts into the canvas it returns changes no colour: every pixel has
    the red, green and blue bytes of the source pixel, and as alpha the byte
    nearest to alpha * a / 255; for an opaque source pixel that is [a]
    itself.  (What the canvas stores of it is the platform's.) *)
Theorem white_tint_changes_alpha_only :
  forall (img : Img) (c : Canvas) (r : Renderer) (a : Z),
    canvas img = Some c ->
    _tint r = Some [255; 255; 255; Num.of_Z a] ->
    (0 <= a <= 255)%Z ->
    Forall (fun v => 0 <= v <= 255)%Z (canvas_pixels c) ->
    (0 < canvas_width c)%nat -> (0 < canvas_height c)%nat ->
    List.length (canvas_pixels c) = (4 * canvas_width c * canvas_height c)%nat ->
    exists c',
      _getTintedImageCanvas img r = Normal (SCanvas c', r) /\
      forall k pr pg pb pa,
        pixel_at (canvas_pixels c) k = Some (pr, pg, pb, pa) ->
        exists qa,
          pixel_at (id_data (tmp_put c')) k = Some (pr, pg, pb, qa) /\
          scaled pa a qa /\
          (pa = 255%Z -> qa = a).
Proof.
  intros img c r a Hc Ht Ha Hbytes Hw Hh Hlen.
  destruct (ImageFacts.tinted_bytes img r Hc Ht Hw Hh Hlen)
    as (out & Hrun & _ & Hall).
  eexists. split; [exact Hrun|]. cbn [tmp_put id_data].
  intros k pr pg pb pa Hpx.
  destruct (@ImageFacts.pixel_at_Some _ _ _ _ _ _ Hpx) as (H0 & H1 & H2 & H3).
  pose proof (ImageFacts.byte_at _ Hbytes H0) as B0.
  pose proof (ImageFacts.byte_at _ Hbytes H1) as B1.
  pose proof (ImageFacts.byte_at _ Hbytes H2) as B2.
  pose proof (ImageFacts.byte_at _ Hbytes H3) as B3.
  assert (W : (0 <= 255 <= 255)%Z) by lia.
  pose proof (@ImageFacts.tinted_scaled [255; 255; 255; Num.of_Z a] _ k 0 _ 255
                H0 eq_refl B0 W) as S0.
  pose proof (@ImageFacts.tinted_scaled [255; 255; 255; Num.of_Z a] _ k 1 _ 255
                H1 eq_refl B1 W) as S1.
  pose proof (@ImageFacts.tinted_scaled [255; 255; 255; Num.of_Z a] _ k 2 _ 255
                H2 eq_refl B2 W) as S2.
  pose proof (@ImageFacts.tinted_scaled [255; 255; 255; Num.of_Z a] _ k 3 _ a
                H3 eq_refl B3 Ha) as S3.
  apply (scaled_white B0) in S0. apply (scaled_white B1) in S1.
  apply (scaled_white B2) in S2.
  exists (tinted [255; 255; 255; Num.of_Z a] (canvas_pixels c) k 3).
  split; [|split; [exact S3|]].
  - rewrite (Hall k pr pg pb pa Hpx), S0, S1, S2. reflexivity.
  - intros ->. unfold scaled in S3. lia.
Qed.

(** [tint(255, 128)] on the opaque pixel (200, 100, 50, 255): the image
    data holds (200, 100, 50, 128). *)
Lemma white_tint_changes_alpha_only_witness :
  exists c',
    _getTintedImageCanvas
        {| width := 1; height := 1; elt := None;
           canvas := Some {| canvas_width := 1; canvas_height := 1;
                             canvas_pixels := [200; 100; 50; 255]%Z |} |}
        (set_tint (Some [255; 255; 255; 128]) Examples.renderer0)
      = Normal (SCanvas c', set_tint (Some [255; 255; 255; 128]) Examples.renderer0) /\
    pixel_at (id_data (tmp_put c')) 0 = Some (200, 100, 50, 128)%Z.
Proof.
  destruct (@white_tint_changes_alpha_only
              {| width := 1; height := 1; elt := None;
                 canvas := Some {| canvas_width := 1; canvas_height := 1;
                                   canvas_pixels := [200; 100; 50; 255]%Z |} |}
              {| canvas_width := 1; canvas_height := 1;
                 canvas_pixels := [200; 100; 50; 255]%Z |}
              (set_tint (Some [255; 255; 255; 128]) Examples.renderer0)
              128 eq_refl eq_refl)
    as (c' & Hrun & Hpx); try lia.
  - repeat constructor; lia.
  - cbn; lia.
  - cbn; lia.
  - reflexivity.
  - exists c'. split; [exact Hrun|].
    destruct (Hpx 0%nat 200 100 50 255 eq_refl)%Z as (qa & -> & _ & Hqa).
    rewrite (Hqa eq_refl). reflexivity.
Defined.

(** X6.  The tint loop never brightens: with integer tint levels in 0..255,
    on a canvas of positive size, no channel of any pixel of the image data
    that [_getTintedImageCanvas] computes and puts into the canvas it
    returns exceeds that channel of the source pixel, and a channel whose
    tint level is 0 is 0. *)
Theorem tint_never_brightens :
  forall (img : Img) (c : Canvas) (r : Renderer) (tr tg tb ta : Z),
    canvas img = Some c ->
    _tint r = Some [Num.of_Z tr; Num.of_Z tg; Num.of_Z tb; Num.of_Z ta] ->
    (0 <= tr <= 255)%Z -> (0 <= tg <= 255)%Z ->
    (0 <= tb <= 255)%Z -> (0 <= ta <= 255)%Z ->
    Forall (fun v => 0 <= v <= 255)%Z (canvas_pixels c) ->
    (0 < canvas_width c)%nat -> (0 < canvas_height c)%nat ->
    List.length (canvas_pixels c) = (4 * canvas_width c * canvas_height c)%nat ->
    exists c',
      _getTintedImageCanvas img r = Normal (SCanvas c', r) /\
      forall k pr pg pb pa,
        pixel_at (canvas_pixels c) k = Some (pr, pg, pb, pa) ->
        exists qr qg qb qa,
          pixel_at (id_data (tmp_put c')) k = Some (qr, qg, qb, qa) /\
          (0 <= qr <= pr /\ 0 <= qg <= pg /\ 0 <= qb <= pb /\ 0 <= qa <= pa)%Z /\
          (tr = 0%Z -> qr = 0%Z) /\ (tg = 0%Z -> qg = 0%Z) /\
          (tb = 0%Z -> qb = 0%Z) /\ (ta = 0%Z -> qa = 0%Z).
Proof.
  intros img c r tr tg tb ta Hc Ht Htr Htg Htb Hta Hbytes Hw Hh Hlen.
  destruct (ImageFacts.tinted_bytes img r Hc Ht Hw Hh Hlen)
    as (out & Hrun & _ & Hall).
  eexists. split; [exact Hrun|]. cbn [tmp_put id_data].
  intros k pr pg pb pa Hpx.
  destruct (@ImageFacts.pixel_at_Some _ _ _ _ _ _ Hpx) as (H0 & H1 & H2 & H3).
  pose proof (ImageFacts.byte_at _ Hbytes H0) as B0.
  pose proof (ImageFacts.byte_at _ Hbytes H1) as B1.
  pose proof (ImageFacts.byte_at _ Hbytes H2) as B2.
  pose proof (ImageFacts.byte_at _ Hbytes H3) as B3.
  set (l := [Num.of_Z tr; Num.of_Z tg; Num.of_Z tb; Num.of_Z ta]) in *.
  pose proof (@ImageFacts.tinted_scaled l _ k 0 _ _ H0 eq_refl B0 Htr) as S0.
  pose proof (@ImageFacts.tinted_scaled l _ k 1 _ _ H1 eq_refl B1 Htg) as S1.
  pose proof (@ImageFacts.tinted_scaled l _ k 2 _ _ H2 eq_refl B2 Htb) as S2.
  pose proof (@ImageFacts.tinted_scaled l _ k 3 _ _ H3 eq_refl B3 Hta) as S3.
  pose proof (scaled_le B0 Htr S0). pose proof (scaled_le B1 Htg S1).
  pose proof (scaled_le B2 Htb S2). pose proof (scaled_le B3 Hta S3).
  eexists _, _, _, _. split; [apply (Hall k pr pg pb pa Hpx)|].
  unfold scaled in S0, S1, S2, S3.
  split; [lia|]. repeat split; intros ->; lia.
Qed.

(** A grey, half-transparent pixel under the tint (0, 153, 204, 255). *)
Lemma tint_never_brightens_witness :
  exists c',
    _getTintedImageCanvas
        {| width := 1; height := 1; elt := None;
           canvas := Some {| canvas_width := 1; canvas_height := 1;
                             canvas_pixels := [100; 100; 100; 128]%Z |} |}
        (set_tint (Some [0; 153; 204; 255]) Examples.renderer0)
      = Normal (SCanvas c', set_tint (Some [0; 153; 204; 255]) Examples.renderer0) /\
    pixel_at (id_data (tmp_put c')) 0 = Some (0, 60, 80, 128)%Z.
Proof.
  destruct (@tint_never_brightens
              {| width := 1; height := 1; elt := None;
                 canvas := Some {| canvas_width := 1; canvas_height := 1;
                                   canvas_pixels := [100; 100; 100; 128]%Z |} |}
              {| canvas_width := 1; canvas_height := 1;
                 canvas_pixels := [100; 100; 100; 128]%Z |}
              (set_tint (Some [0; 153; 204; 255]) Examples.renderer0)
              0 153 204 255 eq_refl eq_refl)
    as (c' & Hrun & _); try lia.
  - repeat constructor; lia.
  - cbn; lia.
  - cbn; lia.
  - reflexivity.
  - exists c'. split; [exact Hrun|].
    vm_compute in Hrun. injection Hrun as <-. reflexivity.
Defined.

End TintMore.

(** ** More on loading images *)

Module LoadMore.

Import Js Image Observe.
Open Scope float_scope.
Open Scope js_scope.

(** What [loadImage] leaves behind: one more object, one more pending
    loader, nothing else. *)
Lemma loadImage_runs (path : string) (sc fc dp : option fn) (wd : World) :
  loadImage path sc fc dp wd =
  Normal (List.length (heap wd),
          {| heap := heap wd ++ [new_p5Image 1 1];
             loading :=
               {| ld_src := path;
                  ld_crossOrigin :=
                    if not_data_uri path then Some "Anonymous"%string else None;
                  ld_pImg := List.length (heap wd);
                  ld_success := sc; ld_failure := fc; ld_decrement := dp |}
               :: loading wd;
             effects := effects wd |}).
Proof. reflexivity. Qed.

(** X7.  Two [loadImage] calls return two different images, and the
    completion of the second load resizes the second image only: the first
    is still the 1 x 1 image it was created as. *)
Theorem loads_do_not_share_images :
  forall (path1 path2 : string) (sc1 fc1 dp1 sc2 fc2 dp2 : option fn)
         (wd : World) (img : Decoded),
  exists pImg1 pImg2 l2 rest wd2 wd3 o2,
    (p1 <- loadImage path1 sc1 fc1 dp1 ;;
     p2 <- loadImage path2 sc2 fc2 dp2 ;;
     ret (p1, p2)) wd = Normal ((pImg1, pImg2), wd2) /\
    pImg1 <> pImg2 /\
    loading wd2 = l2 :: rest /\ ld_pImg l2 = pImg2 /\
    onload l2 img wd2 = Normal (tt, wd3) /\
    nth_error (heap wd3) pImg1 = Some (new_p5Image 1 1) /\
    nth_error (heap wd3) pImg2 = Some o2 /\
    width o2 = Num.of_Z (Z.of_nat (dec_width img)) /\
    height o2 = Num.of_Z (Z.of_nat (dec_height img)).
Proof.
  intros. unfold bind at 1. rewrite loadImage_runs.
  unfold bind at 1. rewrite loadImage_runs. unfold ret.
  cbn [heap loading effects]. rewrite length_app. cbn [List.length].
  match goal with
  | |- context [Normal (_, {| heap := ?h; loading := ?l :: ?rest; effects := ?e |})] =>
      destruct (@LoadFacts.onload_resizes l img
                  {| heap := h; loading := l :: rest; effects := e |}
                  (new_p5Image 1 1))
        as (wd3 & o2 & Hrun & Ho2 & Hw & Hh & Hother)
  end.
  - cbn [ld_pImg heap]. rewrite nth_error_app2 by (rewrite length_app; cbn; lia).
    rewrite length_app. cbn [List.length].
    replace (List.length (heap wd) + 1 - (List.length (heap wd) + 1))%nat
      with 0%nat by lia.
    reflexivity.
  - discriminate.
  - cbn [ld_pImg] in *.
    eexists _, _, _, _, _, wd3, o2. split; [reflexivity|].
    split; [lia|]. split; [reflexivity|]. split; [reflexivity|].
    split; [exact Hrun|]. split; [|split; [exact Ho2 | split; assumption]].
    rewrite Hother by lia. cbn [heap].
    rewrite nth_error_app1 by (rewrite length_app; cbn; lia).
    apply LoadFacts.nth_error_snoc.
Qed.

Lemma invocations_cons (g : fn) (e : Effect) (es : list Effect) :
  invocations g (e :: es) =
  ((if invokes g e then 1 else 0) + invocations g es)%nat.
Proof. unfold invocations. cbn [filter]. destruct (invokes g e); reflexivity. Qed.





(** X9.  When a load fails, [onerror] first reports the failure (code 0 and
    the source of the image); it then calls the failure callback, with the
    event, if that is a function other than the preload counter's; and it
    never calls [decrementPreload].  The images are left as they are. *)
Theorem onerror_reports_then_calls_back :
  forall (l : Loader) (e : string) (wd : World),
  exists wd' calls,
    onerror l e wd = Normal (tt, wd') /\
    heap wd' = heap wd /\
    effects wd' = calls ++ FriendlyFileLoadError 0 (ld_src l) :: effects wd /\
    (forall g, ld_decrement l = Some g -> invocations g calls = 0%nat) /\
    (forall f, ld_failure l = Some f -> ld_decrement l <> Some f ->
               calls = [CallFailure f e]) /\
    (ld_failure l = None \/ ld_failure l = ld_decrement l -> calls = []).
Proof.
  intros l e wd. unfold onerror, onerror_calling, call, bind, effect, modify, ret.
  destruct (ld_failure l) as [f|] eqn:Ef.
  - destruct (ld_decrement l) as [g|] eqn:Ed; cbn [fn_eqb].
    + destruct (Nat.eqb_spec f g) as [-> | Hfg]; cbn [negb].
      * eexists _, []. split; [reflexivity|]. split; [reflexivity|].
        split; [reflexivity|]. split; [|split].
        -- intros g' _. reflexivity.
        -- intros f' E Hne. injection E as <-. congruence.
        -- reflexivity.
      * eexists _, [CallFailure f e]. split; [reflexivity|]. split; [reflexivity|].
        split; [reflexivity|]. split; [|split].
        -- intros g' E. injection E as <-. rewrite invocations_cons.
           cbn [invokes]. destruct (Nat.eqb_spec f g); [congruence | reflexivity].
        -- intros f' E _. injection E as <-. reflexivity.
        -- intros [E | E]; [discriminate | injection E as E; congruence].
    + eexists _, [CallFailure f e]. split; [reflexivity|]. split; [reflexivity|].
      split; [reflexivity|]. split; [|split].
      * discriminate.
      * intros f' E _. injection E as <-. reflexivity.
      * intros [E | E]; discriminate.
  - eexists _, []. split; [reflexivity|]. split; [reflexivity|].
    split; [reflexivity|]. split; [|split].
    + intros g' _. reflexivity.
    + discriminate.
    + reflexivity.
Qed.

Lemma prefix_app (p s : string) :
  String.prefix p s = true <-> exists rest, s = (p ++ rest)%string.
Proof.
  revert s; induction p as [|c p IH]; intros s.
  - split; [exists s; reflexivity | destruct s; reflexivity].
  - destruct s as [|d s].
    + split; [discriminate | intros (r & H); discriminate].
    + cbn [String.prefix String.append].
      destruct (Ascii.ascii_dec c d) as [-> | Hne].
      * rewrite IH. split; intros (r & H); exists r; congruence.
      * split; [discriminate | intros (r & H); congruence].
Qed.

(** X10.  [loadImage] requests the image with [crossOrigin = 'Anonymous']
    for every path except those that begin with [data:image/], for which
    the attribute is left unset; the request carries the path as given. *)
Theorem crossOrigin_unless_data_uri :
  forall (path : string) (sc fc dp : option fn) (wd : World),
  exists pImg l wd1,
    loadImage path sc fc dp wd = Normal (pImg, wd1) /\
    loading wd1 = l :: loading wd /\
    ld_src l = path /\
    ((exists rest, path = ("data:image/" ++ rest)%string) ->
     ld_crossOrigin l = None) /\
    (~ (exists rest, path = ("data:image/" ++ rest)%string) ->
     ld_crossOrigin l = Some "Anonymous"%string).
Proof.
  intros. rewrite loadImage_runs. eexists _, _, _.
  split; [reflexivity|]. split; [reflexivity|]. split; [reflexivity|].
  cbn [ld_crossOrigin]. unfold not_data_uri.
  destruct (String.prefix "data:image/" path) eqn:E; cbn [negb].
  - split; [reflexivity|]. intros H. exfalso. apply H. apply prefix_app. exact E.
  - split; [|reflexivity]. intros H. apply prefix_app in H. congruence.
Qed.

Lemma crossOrigin_unless_data_uri_witness :
  (exists pImg l wd1,
     loadImage "data:image/png;base64,iVBORw0KGgo=" None None None Examples.world0
       = Normal (pImg, wd1) /\
     loading wd1 = [l] /\ ld_crossOrigin l = None) /\
  (exists pImg l wd1,
     loadImage "assets/data:image/x.png" None None None Examples.world0
       = Normal (pImg, wd1) /\
     loading wd1 = [l] /\ ld_crossOrigin l = Some "Anonymous"%string).
Proof.
  split.
  - destruct (crossOrigin_unless_data_uri "data:image/png;base64,iVBORw0KGgo="
                None None None Examples.world0)
      as (pImg & l & wd1 & Hrun & Hl & _ & Hdata & _).
    exists pImg, l, wd1. split; [exact Hrun|]. split; [exact Hl|].
    apply Hdata. eexists. reflexivity.
  - destruct (crossOrigin_unless_data_uri "assets/data:image/x.png"
                None None None Examples.world0)
      as (pImg & l & wd1 & Hrun & Hl & _ & _ & Hother).
    exists pImg, l, wd1. split; [exact Hrun|]. split; [exact Hl|].
    apply Hother. intros (rest & H). discriminate.
Defined.

End LoadMore.

(** ** More on the camera commands *)

Module CameraMore.

Import Js Camera Observe.
Open Scope float_scope.

(** [Math.max] of two numbers is one of them and is not below either. *)
Lemma Math_max_bounds (a b : float) :
  is_nan a = false -> is_nan b = false ->
  (a <=? Math_max a b) = true /\ (b <=? Math_max a b) = true /\
  (Math_max a b = a \/ Math_max a b = b).
Proof.
  intros Ha Hb. unfold Math_max. rewrite Ha, Hb. cbn [orb].
  destruct (a <? b) eqn:Eab.
  - split; [apply NumMore.ltb_leb; exact Eab|].
    split; [apply NumMore.leb_refl; exact Hb | right; reflexivity].
  - destruct (b <? a) eqn:Eba.
    + split; [apply NumMore.leb_refl; exact Ha|].
      split; [apply NumMore.ltb_leb; exact Eba | left; reflexivity].
    + pose proof (NumMore.not_ltb_leb Ha Hb Eba) as Hab.
      pose proof (NumMore.not_ltb_leb Hb Ha Eab) as Hba.
      destruct (get_sign a).
      * split; [exact Hab|].
        split; [apply NumMore.leb_refl; exact Hb | right; reflexivity].
      * split; [apply NumMore.leb_refl; exact Ha|].
        split; [exact Hba | left; reflexivity].
Qed.

Section WithMatrix.

Variable Matrix : Type.
Variable identity : Matrix.
Variable mat_perspective : Matrix -> float -> float -> float -> float -> Matrix.
Variable mat_ortho :
  Matrix -> float -> float -> float -> float -> float -> float -> Matrix.
Variable mat_translate : Matrix -> float -> float -> float -> Matrix.

Local Abbreviation p5 := (p5 Matrix).
Local Abbreviation ortho := (ortho identity mat_ortho).
Local Abbreviation exec := (exec identity mat_perspective mat_ortho mat_translate).
Local Abbreviation run := (run identity mat_perspective mat_ortho mat_translate).
Local Abbreviation view_after := (view_after mat_translate).

Lemma exec_runs (c : command) (this : p5) :
  exists this', exec c this = Normal (tt, this') /\
    PI this' = PI this /\ tan this' = tan this /\
    width this' = width this /\ height this' = height this.
Proof.
  destruct c; cbn [Camera.exec].
  - rewrite CameraFacts.camera_runs. eexists. repeat split.
  - rewrite CameraFacts.perspective_runs. eexists. repeat split.
  - rewrite CameraFacts.ortho_runs. eexists. repeat split.
Qed.

Lemma run_cons (c : command) (cs : list command) (this this1 : p5) :
  exec c this = Normal (tt, this1) ->
  run (c :: cs) this = run cs this1.
Proof. intros H. cbn [Camera.run]. unfold bind. rewrite H. reflexivity. Qed.

(** A projection command makes the same renderer state from two sketches
    that differ in their projection matrix and kind only. *)
Lemma projection_forgets (q : command) (this this0 : p5) (r : RendererGL Matrix) :
  is_projection q = true ->
  this = with_renderer this0 r ->
  uMVMatrix r = uMVMatrix (_renderer this0) ->
  exec q this = exec q this0.
Proof.
  intros Hq -> Hmv. destruct q as [x y z | fovy aspect near far | l rt b t n f];
    [discriminate| |]; cbn [Camera.exec].
  - rewrite !CameraFacts.perspective_runs.
    unfold with_renderer, set_renderer, fovy_used, aspect_used, near_used,
      far_used, fovy_used. cbn [PI tan width height _renderer uMVMatrix].
    rewrite Hmv. reflexivity.
  - rewrite !CameraFacts.ortho_runs.
    unfold with_renderer, set_renderer. cbn [PI tan width height _renderer uMVMatrix].
    rewrite Hmv. reflexivity.
Qed.

Lemma projection_after_projection (p q : command) (this this1 : p5) :
  is_projection p = true -> is_projection q = true ->
  exec p this = Normal (tt, this1) ->
  exec q this1 = exec q this.
Proof.
  intros Hp Hq Hrun.
  destruct p as [x y z | fovy aspect near far | l rt b t n f];
    [discriminate| |]; cbn [Camera.exec] in Hrun.
  - rewrite CameraFacts.perspective_runs in Hrun. injection Hrun as <-.
    eapply projection_forgets; [exact Hq | reflexivity | reflexivity].
  - rewrite CameraFacts.ortho_runs in Hrun. injection Hrun as <-.
    eapply projection_forgets; [exact Hq | reflexivity | reflexivity].
Qed.

(** X11.  Projection commands are absolute: after any sequence of
    [perspective] and [ortho] calls, a further projection command leaves the
    sketch exactly as that command alone would have, since each one rebuilds
    the projection matrix from the identity. *)
Theorem last_projection_wins :
  forall (ps : list command) (q : command) (this : p5),
    forallb is_projection ps = true ->
    is_projection q = true ->
    run (ps ++ [q]) this = run [q] this.
Proof.
  induction ps as [|p ps IH]; intros q this Hps Hq.
  - reflexivity.
  - cbn [forallb] in Hps. apply andb_prop in Hps. destruct Hps as [Hp Hps].
    destruct (exec_runs p this) as (this1 & Hrun & _).
    cbn [app]. rewrite (@run_cons p (ps ++ [q]) this this1 Hrun).
    rewrite (IH q this1 Hps Hq).
    cbn [Camera.run]. unfold bind.
    rewrite (@projection_after_projection p q this this1 Hp Hq Hrun). reflexivity.
Qed.

(** X12.  A camera move and a projection command do not interfere: in
    either order they leave the same sketch. *)
Theorem camera_and_projection_commute :
  forall (x y z : float) (q : command) (this : p5),
    is_projection q = true ->
    run [Camera x y z; q] this = run [q; Camera x y z] this.
Proof.
  intros x y z q this Hq.
  destruct q as [x' y' z' | fovy aspect near far | l rt b t n f];
    [discriminate| |]; cbn [Camera.run Camera.exec]; unfold bind.
  - rewrite CameraFacts.camera_runs, !CameraFacts.perspective_runs,
      CameraFacts.camera_runs. reflexivity.
  - rewrite CameraFacts.camera_runs, !CameraFacts.ortho_runs,
      CameraFacts.camera_runs. reflexivity.
Qed.

Lemma view_after_filter (cs : list command) (m : Matrix) :
  view_after (filter is_camera cs) m = view_after cs m.
Proof.
  revert m; induction cs as [|c cs IH]; intros m; [reflexivity|].
  destruct c; cbn [filter is_camera view_after]; apply IH.
Qed.

(** X13.  Whatever projection commands are mixed in, every run returns
    normally and its view matrix is the original one with the translations
    of its camera commands composed into it in order, each by the negated
    position: [perspective] and [ortho] never touch the view matrix, and the
    run with the projection commands left out ends with the same one. *)
Theorem view_matrix_follows_camera_commands :
  forall (cs : list command) (this : p5),
  exists this' this'',
    run cs this = Normal (tt, this') /\
    run (filter is_camera cs) this = Normal (tt, this'') /\
    uMVMatrix (_renderer this') = view_after cs (uMVMatrix (_renderer this)) /\
    uMVMatrix (_renderer this'') = uMVMatrix (_renderer this').
Proof.
  assert (Hrun : forall cs this, exists this',
            run cs this = Normal (tt, this') /\
            uMVMatrix (_renderer this')
              = view_after cs (uMVMatrix (_renderer this))).
  { induction cs as [|c cs IH]; intros this.
    - exists this. split; reflexivity.
    - destruct c as [x y z | fovy aspect near far | l rt b t n f].
      + destruct (IH (with_renderer this
           {| uMVMatrix := mat_translate (uMVMatrix (_renderer this)) (- x) (- y) (- z);
              uPMatrix := uPMatrix (_renderer this);
              _curCamera := _curCamera (_renderer this) |}))
          as (this' & H1 & H2).
        exists this'. split; [|exact H2].
        erewrite run_cons; [exact H1|]. apply CameraFacts.camera_runs.
      + match goal with |- context [Perspective ?a ?b ?c ?d] =>
          pose proof (CameraFacts.perspective_runs identity mat_perspective
                        a b c d this) as Hp end.
        match type of Hp with _ = Normal (tt, ?t1) =>
          destruct (IH t1) as (this' & H1 & H2) end.
        exists this'. split; [|exact H2].
        erewrite run_cons; [exact H1|]. exact Hp.
      + match goal with |- context [Ortho ?a ?b ?c ?d ?e ?g] =>
          pose proof (CameraFacts.ortho_runs identity mat_ortho
                        a b c d e g this) as Hp end.
        match type of Hp with _ = Normal (tt, ?t1) =>
          destruct (IH t1) as (this' & H1 & H2) end.
        exists this'. split; [|exact H2].
        erewrite run_cons; [exact H1|]. exact Hp. }
  intros cs this.
  destruct (Hrun cs this) as (this' & H1 & H2).
  destruct (Hrun (filter is_camera cs) this) as (this'' & H3 & H4).
  exists this', this''. split; [exact H1|]. split; [exact H3|].
  split; [exact H2|]. rewrite H4, H2. apply view_after_filter.
Qed.

(** The box [ortho] hands to the matrix builder, after defaulting. *)
Lemma ortho_box (left right bottom top near far : option float) (this : p5) :
  exists this',
    ortho left right bottom top near far this = Normal (tt, this') /\
    uPMatrix (_renderer this') =
      mat_ortho identity
        (Num.or_default left (- width this / 2))
        (Num.or_default right (width this / 2))
        (Num.or_default bottom (- height this / 2))
        (Num.or_default top (height this / 2))
        (Num.or_default near 0)
        (Num.or_default far (Math_max (width this) (height this))).
Proof. rewrite CameraFacts.ortho_runs. eexists. split; reflexivity. Qed.

(** X14.  [ortho] takes a falsy number ([0], [-0] or [NaN]) for any of its
    six parameters as an omitted one: in its place the matrix builder
    receives [-width/2] for left, [width/2] for right, [-height/2] for
    bottom, [height/2] for top, [0] for near and [max(width, height)] for
    far, the other five being passed as they are (after their own
    defaulting).  A box asked to start at [left = 0] starts at [-width/2]. *)
Theorem ortho_explicit_zero_is_defaulted :
  forall (this : p5) (v : float) (left right bottom top near far : option float),
    Num.truthy v = false ->
    let l := Num.or_default left (- width this / 2) in
    let r := Num.or_default right (width this / 2) in
    let b := Num.or_default bottom (- height this / 2) in
    let t := Num.or_default top (height this / 2) in
    let n := Num.or_default near 0 in
    let f := Num.or_default far (Math_max (width this) (height this)) in
    (exists this',
       ortho (Some v) right bottom top near far this = Normal (tt, this') /\
       uPMatrix (_renderer this')
         = mat_ortho identity (- width this / 2) r b t n f) /\
    (exists this',
       ortho left (Some v) bottom top near far this = Normal (tt, this') /\
       uPMatrix (_renderer this')
         = mat_ortho identity l (width this / 2) b t n f) /\
    (exists this',
       ortho left right (Some v) top near far this = Normal (tt, this') /\
       uPMatrix (_renderer this')
         = mat_ortho identity l r (- height this / 2) t n f) /\
    (exists this',
       ortho left right bottom (Some v) near far this = Normal (tt, this') /\
       uPMatrix (_renderer this')
         = mat_ortho identity l r b (height this / 2) n f) /\
    (exists this',
       ortho left right bottom top (Some v) far this = Normal (tt, this') /\
       uPMatrix (_renderer this') = mat_ortho identity l r b t 0 f) /\
    (exists this',
       ortho left right bottom top near (Some v) this = Normal (tt, this') /\
       uPMatrix (_renderer this')
         = mat_ortho identity l r b t n (Math_max (width this) (height this))).
Proof.
  intros this v left right bottom top near far Hv l r b t n f.
  repeat split.
  - destruct (ortho_box (Some v) right bottom top near far this) as (t' & H1 & H2).
    exists t'. split; [exact H1|]. rewrite H2.
    rewrite (@NumFacts.or_default_falsy v _ Hv). reflexivity.
  - destruct (ortho_box left (Some v) bottom top near far this) as (t' & H1 & H2).
    exists t'. split; [exact H1|]. rewrite H2.
    rewrite (@NumFacts.or_default_falsy v _ Hv). reflexivity.
  - destruct (ortho_box left right (Some v) top near far this) as (t' & H1 & H2).
    exists t'. split; [exact H1|]. rewrite H2.
    rewrite (@NumFacts.or_default_falsy v _ Hv). reflexivity.
  - destruct (ortho_box left right bottom (Some v) near far this) as (t' & H1 & H2).
    exists t'. split; [exact H1|]. rewrite H2.
    rewrite (@NumFacts.or_default_falsy v _ Hv). reflexivity.
  - destruct (ortho_box left right bottom top (Some v) far this) as (t' & H1 & H2).
    exists t'. split; [exact H1|]. rewrite H2.
    rewrite (@NumFacts.or_default_falsy v _ Hv). reflexivity.
  - destruct (ortho_box left right bottom top near (Some v) this) as (t' & H1 & H2).
    exists t'. split; [exact H1|]. rewrite H2.
    rewrite (@NumFacts.or_default_falsy v _ Hv). reflexivity.
Qed.

(** X15.  On a sketch whose width and height are numbers (not [NaN]), the
    far plane [ortho] uses when none is passed is the width or the height,
    and is below neither. *)
Theorem ortho_default_far_covers_the_canvas :
  forall (this : p5) (left right bottom top near : option float),
    is_nan (width this) = false -> is_nan (height this) = false ->
    exists this' far,
      ortho left right bottom top near None this = Normal (tt, this') /\
      uPMatrix (_renderer this') =
        mat_ortho identity
          (Num.or_default left (- width this / 2))
          (Num.or_default right (width this / 2))
          (Num.or_default bottom (- height this / 2))
          (Num.or_default top (height this / 2))
          (Num.or_default near 0) far /\
      (width this <=? far) = true /\ (height this <=? far) = true /\
      (far = width this \/ far = height this).
Proof.
  intros this left right bottom top near Hw Hh.
  rewrite CameraFacts.ortho_runs.
  destruct (@Math_max_bounds _ _ Hw Hh) as (H1 & H2 & H3).
  eexists _, _. split; [reflexivity|]. split; [reflexivity|].
  repeat split; assumption.
Qed.

End WithMatrix.

End CameraMore.

Module CameraMoreExamples.

Import Js Camera Observe.
Open Scope float_scope.

(** [ortho(); perspective(); perspective(1, 2, 3, 4)] against
    [perspective(1, 2, 3, 4)] alone. *)
Lemma last_projection_wins_witness :
  Examples.run
    ([Ortho None None None None None None; Perspective None None None None]
     ++ [Perspective (Some 1) (Some 2) (Some 3) (Some 4)]) Examples.sketch
  = Examples.run [Perspective (Some 1) (Some 2) (Some 3) (Some 4)] Examples.sketch.
Proof.
  apply (@CameraMore.last_projection_wins Mat4.Matrix Mat4.identity
           (Mat4.perspective Examples.Math_tan) Mat4.ortho Mat4.translate
           [Ortho None None None None None None; Perspective None None None None]
           (Perspective (Some 1) (Some 2) (Some 3) (Some 4)) Examples.sketch
           eq_refl eq_refl).
Defined.

Lemma camera_and_projection_commute_witness :
  Examples.run [Camera 0 0 100; Ortho None None None None None None] Examples.sketch
  = Examples.run [Ortho None None None None None None; Camera 0 0 100] Examples.sketch.
Proof.
  apply (@CameraMore.camera_and_projection_commute Mat4.Matrix Mat4.identity
           (Mat4.perspective Examples.Math_tan) Mat4.ortho Mat4.translate
           0 0 100 (Ortho None None None None None None) Examples.sketch eq_refl).
Defined.

(** [ortho(0, 100, 80, 100, 1, 200)] on the 100 x 100 sketch: the box handed
    to the builder runs from -50 to 100, not from 0. *)
Lemma ortho_explicit_zero_is_defaulted_witness :
  Num.truthy 0 = false /\
  exists this',
    Examples.ortho (Some 0) (Some 100) (Some 80) (Some 100) (Some 1) (Some 200)
        Examples.sketch = Normal (tt, this') /\
    uPMatrix (_renderer this')
      = Mat4.ortho Mat4.identity (-50) 100 80 100 1 200.
Proof.
  split; [reflexivity|].
  destruct (@CameraMore.ortho_explicit_zero_is_defaulted Mat4.Matrix Mat4.identity
              Mat4.ortho Examples.sketch 0 None (Some 100) (Some 80) (Some 100)
              (Some 1) (Some 200) eq_refl) as ((this' & Hrun & Hm) & _).
  exists this'. split; [exact Hrun|]. rewrite Hm. reflexivity.
Defined.

Lemma ortho_default_far_covers_the_canvas_witness :
  exists this',
    Examples.ortho None None None None None None Examples.sketch
      = Normal (tt, this') /\
    uPMatrix (_renderer this')
      = Mat4.ortho Mat4.identity (-50) 50 (-50) 50 0 100.
Proof.
  destruct (@CameraMore.ortho_default_far_covers_the_canvas Mat4.Matrix
              Mat4.identity Mat4.ortho Examples.sketch None None None None None
              eq_refl eq_refl)
    as (this' & far & Hrun & Hm & _ & _ & Hfar).
  exists this'. split; [exact Hrun|]. rewrite Hm.
  destruct Hfar as [-> | ->]; reflexivity.
Defined.

End CameraMoreExamples.

(** ** The placement mode at drawing time *)

Module PlacementMore.

Import Js Image Observe.
Open Scope float_scope.
Open Scope js_scope.

(** X16.  [image] places the picture by the mode stored last: drawn right
    after [imageMode(m)] with a recognised [m], the destination rectangle is
    [canvas.modeAdjust] of the (defaulted) destination at mode [m]; after an
    [imageMode] call with any other value it is drawn exactly as if that
    call had not been made. *)
Theorem image_uses_the_stored_mode :
  forall adjust (m : value) img dx dy dWidth dHeight sx sy sWidth sHeight r,
    (recognized m ->
     exists c,
       (imageMode m ;;;
        image adjust img dx dy dWidth dHeight sx sy sWidth sHeight) r
         = Normal (tt, renderer_image c (set_imageMode m r)) /\
       {| x := d_x c; y := d_y c; w := d_w c; h := d_h c |}
         = adjust dx dy (Num.or_default dWidth (defW img))
             (Num.or_default dHeight (defH img)) m) /\
    (~ recognized m ->
     (imageMode m ;;;
      image adjust img dx dy dWidth dHeight sx sy sWidth sHeight) r
       = image adjust img dx dy dWidth dHeight sx sy sWidth sHeight r).
Proof.
  intros. split.
  - intros Hm.
    assert (Hrun : imageMode m r = Normal (tt, set_imageMode m r))
      by (destruct Hm as [-> | [-> | ->]]; reflexivity).
    unfold bind at 1. rewrite Hrun. rewrite ImageFacts.image_draws.
    eexists. split; [reflexivity|].
    cbv zeta. cbn [d_x d_y d_w d_h _imageMode set_imageMode].
    generalize (adjust dx dy (Num.or_default dWidth (defW img))
                  (Num.or_default dHeight (defH img)) m).
    intros []. reflexivity.
  - intros Hm.
    assert (Hrun : imageMode m r = Normal (tt, r)).
    { unfold imageMode.
      destruct (strict_eq m constants.CORNER) eqn:E1.
      { apply JsFacts.strict_eq_str in E1. exfalso. apply Hm. left. exact E1. }
      destruct (strict_eq m constants.CORNERS) eqn:E2.
      { apply JsFacts.strict_eq_str in E2. exfalso. apply Hm. right; left. exact E2. }
      destruct (strict_eq m constants.CENTER) eqn:E3.
      { apply JsFacts.strict_eq_str in E3. exfalso. apply Hm. right; right. exact E3. }
      reflexivity. }
    unfold bind at 1. rewrite Hrun. reflexivity.
Qed.

(** [imageMode(CENTER)] then an 80 x 80 drawing at (50, 50): the rectangle
    handed to the renderer is what [modeAdjust] makes of it at CENTER, here
    the one with top-left corner (10, 10); [imageMode("centre")] first
    changes nothing. *)
Lemma image_uses_the_stored_mode_witness :
  (exists c,
     (imageMode constants.CENTER ;;;
      image modeAdjust Examples.bitmap200 50 50 (Some 80) (Some 80)
        None None None None) Examples.renderer0
       = Normal (tt, renderer_image c
                       (set_imageMode constants.CENTER Examples.renderer0)) /\
     {| x := d_x c; y := d_y c; w := d_w c; h := d_h c |}
       = {| x := 10; y := 10; w := 80; h := 80 |}) /\
  (imageMode (VStr "centre") ;;;
   image modeAdjust Examples.bitmap200 50 50 (Some 80) (Some 80)
     None None None None) Examples.renderer0
    = image modeAdjust Examples.bitmap200 50 50 (Some 80) (Some 80)
        None None None None Examples.renderer0.
Proof.
  destruct (@image_uses_the_stored_mode modeAdjust constants.CENTER
              Examples.bitmap200 50 50 (Some 80) (Some 80) None None None None
              Examples.renderer0) as [Hrec _].
  destruct (@image_uses_the_stored_mode modeAdjust (VStr "centre")
              Examples.bitmap200 50 50 (Some 80) (Some 80) None None None None
              Examples.renderer0) as [_ Hign].
  split.
  - destruct (Hrec (or_intror (or_intror eq_refl))) as (c & Hrun & Hrect).
    exists c. split; [exact Hrun|]. rewrite Hrect. reflexivity.
  - apply Hign. intros [H | [H | H]]; discriminate.
Defined.

End PlacementMore.
